(** * The game simulator: single matches and the autoplay tournament

    A shallow embedding of [simulator.py].  The class [Simulator] owns the
    parsed command line ([self.args]), the board roster
    ([self.board_options]) and the current engine ([self.world]).  Its
    methods mutate that object, write log records, draw random numbers and
    may raise, so they are embedded in a state-and-exception monad over the
    process state [Proc].

    Floats are embedded as rationals ([Q]): every win credit is a multiple
    of one half and is therefore represented exactly by a binary float, so
    exact rational equality implies equality within any float tolerance.
    The game engine ([World]), the file system and the random source are
    collaborators that are not defined in [simulator.py]; they are taken as
    parameters. *)

From Stdlib Require Import ZArith QArith Qabs Lqa List String Ascii Bool Lia.
From Stdlib Require Import Floats.
Import ListNotations.

Local Open Scope string_scope.
Local Open Scope list_scope.
Local Open Scope Z_scope.

(** ** Python values and the configuration *)

(** The values [args.board_roster_dir] can hold: [None], an integer (the
    parser declares [type=int]) or a string. *)
Inductive pyval : Type :=
| PyNone
| PyInt (z : Z)
| PyStr (s : string).

(** Python truth value of a [pyval]. *)
Definition truthy (v : pyval) : bool :=
  match v with
  | PyNone => false
  | PyInt z => negb (z =? 0)
  | PyStr s => negb (String.eqb s "")
  end.

(** The [argparse.Namespace] built by [get_args].  [board_roster_dir] is an
    [option] because [__init__] asks [hasattr] first; [args_autoplay] is the
    attribute [autoplay] (renamed: [autoplay] is the method below). *)
Record Args : Type := mkArgs {
  player_1 : string;
  player_2 : string;
  board_path : option string;
  board_roster_dir : option pyval;
  display : bool;
  display_delay : Q;
  display_save : bool;
  display_save_path : string;
  args_autoplay : bool;
  autoplay_runs : Z
}.

(** [self.args.display = v] *)
Definition set_display (v : bool) (a : Args) : Args :=
  {| player_1 := player_1 a;
     player_2 := player_2 a;
     board_path := board_path a;
     board_roster_dir := board_roster_dir a;
     display := v;
     display_delay := display_delay a;
     display_save := display_save a;
     display_save_path := display_save_path a;
     args_autoplay := args_autoplay a;
     autoplay_runs := autoplay_runs a |}.

(** ** Strings and paths *)

(** [s.endswith(suffix)]: some tail of [s] is [suffix]. *)
Fixpoint endswith (s suffix : string) : bool :=
  if String.eqb s suffix then true
  else match s with
       | EmptyString => false
       | String _ s' => endswith s' suffix
       end.

(** [s.startswith("/")] *)
Definition startswith_sep (s : string) : bool :=
  match s with
  | String c _ => Ascii.eqb c "/"%char
  | EmptyString => false
  end.

(** [os.path.join(a, b)] on a POSIX system. *)
Definition path_join (a b : string) : string :=
  if startswith_sep b then b
  else if String.eqb a "" || endswith a "/" then (a ++ b)%string
  else (a ++ "/" ++ b)%string.

(** The filter of the list comprehension in [__init__]. *)
Definition is_board_file (fname : string) : bool :=
  endswith fname ".csv" || endswith fname ".board".

(** The part of [os] that [__init__] consults. *)
Record FileSystem : Type := mkFS {
  isdir : string -> bool;
  listdir : string -> list string
}.

(** The value [__init__] stores in [self.board_options]. *)
Definition init_board_options (fs : FileSystem) (a : Args) : list string :=
  match board_roster_dir a with
  | Some v =>
      if truthy v then
        match v with
        | PyStr roster_dir =>       (* isinstance(roster_dir, str) *)
            if isdir fs roster_dir then
              map (path_join roster_dir)
                  (filter is_board_file (listdir fs roster_dir))
            else []
        | _ => []
        end
      else []
  | None => []
  end.

(** ** Exceptions, results and Python lists *)

(** The exceptions that can leave [run] and [autoplay]. *)
Inductive exn : Type :=
| ValueError (msg : string)
| ZeroDivisionError
| IndexError
| AttributeError
| EngineError (msg : string).

(** Outcome of a computation over a state [S]: it returns, it raises (the
    mutations made so far persist), or the step budget of the model is
    exhausted (the Python loop is still running). *)
Inductive result (S A : Type) : Type :=
| Ok (a : A) (s : S)
| Raise (e : exn) (s : S)
| OutOfFuel.

Arguments Ok {S A} a s.
Arguments Raise {S A} e s.
Arguments OutOfFuel {S A}.

(** [l[k]] for a Python list, negative indices included. *)
Definition py_index {A : Type} (l : list A) (k : Z) : option A :=
  let n := Z.of_nat (List.length l) in
  if (0 <=? k) && (k <? n) then nth_error l (Z.to_nat k)
  else if (- n <=? k) && (k <? 0) then nth_error l (Z.to_nat (n + k))
  else None.

(** ** Numbers *)

(** The larger of two timings. *)
Definition Qmax2 (a b : Q) : Q := if Qle_bool a b then b else a.

(** [np.max] of a non-empty sequence, given as head and tail. *)
Definition max_from (x : Q) (xs : list Q) : Q := fold_left Qmax2 xs x.

(** Round to the nearest integer, ties to the even one ([np.rint]). *)
Definition round_half_even (q : Q) : Z :=
  let n := Qnum q in
  let d := Zpos (Qden q) in
  let fl := n / d in
  let r := n mod d in
  match 2 * r ?= d with
  | Lt => fl
  | Gt => fl + 1
  | Eq => if Z.even fl then fl else fl + 1
  end.

(** [2 ** e] for an integer exponent of either sign. *)
Definition pow2 (e : Z) : Q := (2 ^ e)%Q.

(** The exponent of the leading bit of [q <> 0]: the [e] with
    [2 ** e <= |q| < 2 ** (e + 1)]. *)
Definition ilog2 (q : Q) : Z :=
  let e0 := Z.log2 (Z.abs (Qnum q)) - Z.log2 (Zpos (Qden q)) in
  if Qle_bool (pow2 e0) (Qabs q) then e0 else e0 - 1.

(** The binary64 value nearest to [q], ties to the even significand: 53
    significant bits, and no bit below [2 ** -1074].  Python floats are
    binary64 values, each of them a rational; the result of a float
    operation is the exact result rounded this way.  (Magnitudes beyond the
    largest finite float, which round to infinity, are not covered.) *)
Definition binary64 (q : Q) : Q :=
  if Qeq_bool q 0 then 0%Q
  else
    let ulp := pow2 (Z.max (ilog2 q - 52) (-1074)) in
    (inject_Z (round_half_even (q / ulp)) * ulp)%Q.

(** [np.round(x, decimals)] for a float [x] and [decimals > 0]: numpy
    computes [rint(x * 10**decimals) / 10**decimals] in binary64, the
    product and the quotient each rounded to the nearest float. *)
Definition np_round (x : Q) (decimals : nat) : Q :=
  let scale := inject_Z (10 ^ Z.of_nat decimals) in
  binary64 (inject_Z (round_half_even (binary64 (x * scale))) / scale).

(** ** Logging *)

Definition INFO : Z := 20.
Definition WARNING : Z := 30.
Definition CRITICAL : Z := 50.

(** The three messages [simulator.py] formats, with their interpolated
    values kept as data. *)
Inductive LogMsg : Type :=
| MsgRunFinished (agent_1 : string) (p0_score : Z)
                 (agent_2 : string) (p1_score : Z)
| MsgDisplayDisabled
| MsgSummary (player : nat) (agent : string) (win_percentage : Q)
             (max_turn_time : Q).

Definition LogRecord : Type := (Z * LogMsg)%type.

(** ** The engine *)

(** The keyword arguments of [World(...)]. *)
Record WorldArgs : Type := mkWorldArgs {
  wa_player_1 : string;
  wa_player_2 : string;
  wa_board_fpath : option string;
  wa_display_ui : bool;
  wa_display_delay : Q;
  wa_display_save : bool;
  wa_display_save_path : string;
  wa_autoplay : bool
}.

(** What [simulator.py] uses of [world.World]: the constructor, [step()]
    (which mutates the engine and returns [(is_end, p0_score, p1_score)] or
    raises) and the two timing attributes. *)
Record Engine : Type := mkEngine {
  World : Type;
  World_init : WorldArgs -> exn + World;
  World_step : World -> World * (exn + (bool * Z * Z));
  World_p0_time : World -> list Q;
  World_p1_time : World -> list Q
}.

(** The local variables of [autoplay]. *)
Record Stats : Type := mkStats {
  p1_win_count : Q;
  p2_win_count : Q;
  p1_times : list Q;
  p2_times : list Q
}.

Definition stats0 : Stats :=
  {| p1_win_count := 0; p2_win_count := 0; p1_times := []; p2_times := [] |}.

(** One return value of [run]. *)
Definition MatchResult : Type := (Z * Z * list Q * list Q)%type.

Section Simulator.

Context {E : Engine}.

(** ** Process state *)

(** The [Simulator] object together with the process-wide state it touches:
    [logging.root.manager.disable], the records that reached the log
    handler, the state of [np.random] (the raw draws still to come), and
    the calls of [World(...)] made so far. *)
Record Proc : Type := mkProc {
  args : Args;
  board_options : list string;
  world : option (World E);
  log_disable : Z;
  log_out : list LogRecord;
  np_random : nat -> Z;
  constructed : list WorldArgs
}.

Definition M (A : Type) : Type := Proc -> result Proc A.

Definition ret {A : Type} (a : A) : M A := fun st => Ok a st.

Definition bind {A B : Type} (m : M A) (k : A -> M B) : M B :=
  fun st =>
    match m st with
    | Ok a st' => k a st'
    | Raise e st' => Raise e st'
    | OutOfFuel => OutOfFuel
    end.

Definition raise {A : Type} (e : exn) : M A := fun st => Raise e st.

Definition gets {A : Type} (f : Proc -> A) : M A := fun st => Ok (f st) st.

Definition modify (f : Proc -> Proc) : M unit := fun st => Ok tt (f st).

Definition with_args (f : Args -> Args) (st : Proc) : Proc :=
  mkProc (f (args st)) (board_options st) (world st) (log_disable st)
         (log_out st) (np_random st) (constructed st).

Definition with_world (w : World E) (st : Proc) : Proc :=
  mkProc (args st) (board_options st) (Some w) (log_disable st)
         (log_out st) (np_random st) (constructed st).

Definition with_log_disable (lvl : Z) (st : Proc) : Proc :=
  mkProc (args st) (board_options st) (world st) lvl
         (log_out st) (np_random st) (constructed st).

Definition with_log_out (l : list LogRecord) (st : Proc) : Proc :=
  mkProc (args st) (board_options st) (world st) (log_disable st)
         l (np_random st) (constructed st).

Definition with_np_random (g : nat -> Z) (st : Proc) : Proc :=
  mkProc (args st) (board_options st) (world st) (log_disable st)
         (log_out st) g (constructed st).

Definition with_constructed (c : list WorldArgs) (st : Proc) : Proc :=
  mkProc (args st) (board_options st) (world st) (log_disable st)
         (log_out st) (np_random st) c.

Notation "x <- c1 ;; c2" := (bind c1 (fun x => c2))
  (at level 61, c1 at next level, right associativity).
Notation "c1 ;;; c2" := (bind c1 (fun _ => c2))
  (at level 61, right associativity).

(** ** Library calls *)

(** [logger.isEnabledFor(level)]: the process-wide [disable] threshold
    silences every record at or below it; the logger inherits level [INFO]
    from [logging.basicConfig(level=logging.INFO)]. *)
Definition isEnabledFor (st : Proc) (level : Z) : bool :=
  negb (level <=? log_disable st) && (INFO <=? level).

(** [logger.log(level, msg)] *)
Definition log (level : Z) (msg : LogMsg) : M unit :=
  fun st =>
    if isEnabledFor st level
    then Ok tt (with_log_out (log_out st ++ [(level, msg)]) st)
    else Ok tt st.

(** Modelled from the spec: [utils.all_logging_disabled] is imported by
    [simulator.py] but defined in [utils.py], which is not part of the
    source under study.  The spec describes it as a scoped suppression
    acquired for the whole loop that restores the prior verbosity on every
    exit path: remember the current threshold, disable every level (up to
    [CRITICAL], the highest one), run the body, and put the remembered
    threshold back whether the body returned or raised.  [autoplay] calls
    it without arguments. *)
Definition all_logging_disabled {A : Type} (body : M A) : M A :=
  fun st =>
    let highest_level := CRITICAL in
    let previous_level := log_disable st in
    match body (with_log_disable highest_level st) with
    | Ok a st' => Ok a (with_log_disable previous_level st')
    | Raise e st' => Raise e (with_log_disable previous_level st')
    | OutOfFuel => OutOfFuel
    end.

(** [np.random.randint(high)]: a value in [[0, high)], or [ValueError] when
    the interval is empty.  One raw draw of the generator is consumed and
    reduced into the interval. *)
Definition randint (high : Z) : M Z :=
  fun st =>
    if high <=? 0 then Raise (ValueError "high <= 0") st
    else Ok (np_random st O mod high)
            (with_np_random (fun n => np_random st (S n)) st).

(** [l[k]] raising [IndexError] when out of range. *)
Definition index {A : Type} (l : list A) (k : Z) : M A :=
  match py_index l k with
  | Some a => ret a
  | None => raise IndexError
  end.

(** [np.max(l)] *)
Definition np_max (l : list Q) : M Q :=
  match l with
  | [] => raise (ValueError "zero-size array to reduction operation maximum which has no identity")
  | x :: xs => ret (max_from x xs)
  end.

(** [c / n] with [n] an [int]: true division, the exact quotient rounded
    to the nearest float. *)
Definition py_div (c : Q) (n : Z) : M Q :=
  if n =? 0 then raise ZeroDivisionError
  else ret (binary64 (c / inject_Z n)).

(** ** [Simulator.reset] *)

Definition reset (swap_players : bool) (board_fpath : option string)
  : M unit :=
  fun st =>
    let a := args st in
    let board_fpath :=
      match board_fpath with
      | None => board_path a
      | Some b => Some b
      end in
    let '(p1, p2) :=
      if swap_players then (player_2 a, player_1 a)
      else (player_1 a, player_2 a) in
    let wa :=
      {| wa_player_1 := p1;
         wa_player_2 := p2;
         wa_board_fpath := board_fpath;
         wa_display_ui := display a;
         wa_display_delay := display_delay a;
         wa_display_save := display_save a;
         wa_display_save_path := display_save_path a;
         wa_autoplay := args_autoplay a |} in
    let st1 := with_constructed (constructed st ++ [wa]) st in
    match World_init E wa with
    | inl e => Raise e st1
    | inr w => Ok tt (with_world w st1)
    end.

(** ** [Simulator.run] *)

(** [self.world.step()] *)
Definition world_step : M (bool * Z * Z) :=
  fun st =>
    match world st with
    | None => Raise AttributeError st
    | Some w =>
        let '(w', r) := World_step E w in
        match r with
        | inl e => Raise e (with_world w' st)
        | inr x => Ok x (with_world w' st)
        end
    end.

(** The [while not is_end] loop, entered with the triple of the latest
    step; [fuel] bounds the number of further steps. *)
Fixpoint step_until_end (fuel : nat) (r : bool * Z * Z) : M (Z * Z) :=
  let '(is_end, p0_score, p1_score) := r in
  if is_end then ret (p0_score, p1_score)
  else match fuel with
       | O => fun _ => OutOfFuel
       | S fuel' => r' <- world_step ;; step_until_end fuel' r'
       end.

Definition run (fuel : nat) (swap_players : bool)
  (board_fpath : option string) : M MatchResult :=
  reset swap_players board_fpath ;;;
  r <- world_step ;;
  scores <- step_until_end fuel r ;;
  a <- gets args ;;
  log INFO (MsgRunFinished (player_1 a) (fst scores)
                           (player_2 a) (snd scores)) ;;;
  w <- gets world ;;
  match w with
  | None => raise AttributeError
  | Some w => ret (fst scores, snd scores, World_p0_time E w, World_p1_time E w)
  end.

(** ** [Simulator.autoplay] *)

(** Lines 118-124: the exchange of the returned tuple. *)
Definition unswap (swap_players : bool) (r : MatchResult) : MatchResult :=
  let '(p0_score, p1_score, p0_time, p1_time) := r in
  if swap_players then (p1_score, p0_score, p1_time, p0_time)
  else (p0_score, p1_score, p0_time, p1_time).

(** Lines 125-133: the update of the four accumulators. *)
Definition tally (s : Stats) (r : MatchResult) : Stats :=
  let '(p0_score, p1_score, p0_time, p1_time) := r in
  let '(c1, c2) :=
    if p1_score <? p0_score then (p1_win_count s + 1, p2_win_count s)%Q
    else if p0_score <? p1_score then (p1_win_count s, p2_win_count s + 1)%Q
    else (p1_win_count s + (1 # 2), p2_win_count s + (1 # 2))%Q in
  {| p1_win_count := c1;
     p2_win_count := c2;
     p1_times := p1_times s ++ p0_time;
     p2_times := p2_times s ++ p1_time |}.

(** The body of the [for] loop at index [i]. *)
Definition autoplay_body (fuel : nat) (i : nat) (s : Stats) : M Stats :=
  let swap_players := Z.of_nat i mod 2 =? 0 in
  opts <- gets board_options ;;
  k <- randint (Z.of_nat (List.length opts)) ;;
  board_fpath <- index opts k ;;
  r <- run fuel swap_players (Some board_fpath) ;;
  ret (tally s (unswap swap_players r)).

(** [for i in indices: body] threading the accumulators. *)
Fixpoint for_each (body : nat -> Stats -> M Stats) (indices : list nat)
  (s : Stats) : M Stats :=
  match indices with
  | [] => ret s
  | i :: rest => s' <- body i s ;; for_each body rest s'
  end.

(** [for i in range(self.args.autoplay_runs): ...] *)
Definition autoplay_loop (fuel : nat) : M Stats :=
  runs <- gets (fun st => autoplay_runs (args st)) ;;
  for_each (autoplay_body fuel) (seq 0 (Z.to_nat runs)) stats0.

(** One of the two closing [logger.info] calls; the f-string is evaluated
    first, so its failures do not depend on the log threshold. *)
Definition report (player : nat) (agent : Args -> string) (credit : Q)
  (times : list Q) : M unit :=
  a <- gets args ;;
  pct <- py_div credit (autoplay_runs a) ;;
  m <- np_max times ;;
  log INFO (MsgSummary player (agent a) pct (np_round m 5)).

(** [autoplay] returns [None] in Python; the embedding returns the final
    values of its four local accumulators so that they can be observed. *)
Definition autoplay (fuel : nat) : M Stats :=
  a <- gets args ;;
  (if display a then log WARNING MsgDisplayDisabled else ret tt) ;;;
  modify (with_args (set_display false)) ;;;
  s <- all_logging_disabled (autoplay_loop fuel) ;;
  report 1 player_1 (p1_win_count s) (p1_times s) ;;;
  report 2 player_2 (p2_win_count s) (p2_times s) ;;;
  ret s.

End Simulator.

Arguments Proc : clear implicits.
Arguments M : clear implicits.

(** ** [Simulator.__init__] *)

(** A fresh [Simulator] in a fresh process: nothing is logged or disabled
    yet, no engine exists, and [g] is the state of [np.random]. *)
Definition Simulator_init (E : Engine) (fs : FileSystem) (g : nat -> Z)
  (a : Args) : Proc E :=
  {| args := a;
     board_options := init_board_options fs a;
     world := None;
     log_disable := 0;
     log_out := [];
     np_random := g;
     constructed := [] |}.

(** ** Vocabulary of the statements *)

(** [s] ends with [suffix]. *)
Definition has_suffix (s suffix : string) : Prop :=
  exists prefix : string, s = (prefix ++ suffix)%string.


(** Starting from engine state [w], the [n]-th call of [step()] is the
    first one that reports a terminal state; it leaves the engine in [w']
    and reports the scores [s0] and [s1].  No earlier call raises. *)
Inductive ends_after (E : Engine)
  : World E -> nat -> World E -> Z -> Z -> Prop :=
| ends_now : forall w w' s0 s1,
    World_step E w = (w', inr (true, s0, s1)) ->
    ends_after E w 1 w' s0 s1
| ends_later : forall w w1 a b n w' s0 s1,
    World_step E w = (w1, inr (false, a, b)) ->
    ends_after E w1 n w' s0 s1 ->
    ends_after E w (S n) w' s0 s1.

(** The per-match line of [run]. *)
Definition is_run_finished (r : LogRecord) : bool :=
  match snd r with
  | MsgRunFinished _ _ _ _ => true
  | _ => false
  end.

(** The arguments [reset] passes to [World(...)] for configuration [a]. *)
Definition engine_call (a : Args) (swap_players : bool)
  (board_fpath : option string) : WorldArgs :=
  {| wa_player_1 := if swap_players then player_2 a else player_1 a;
     wa_player_2 := if swap_players then player_1 a else player_2 a;
     wa_board_fpath := board_fpath;
     wa_display_ui := display a;
     wa_display_delay := display_delay a;
     wa_display_save := display_save a;
     wa_display_save_path := display_save_path a;
     wa_autoplay := args_autoplay a |}.

(** The part of the process state that only [reset], [randint] and the
    log can change is the same in [st'] as in [st]; the log itself is
    unchanged when [INFO] records are disabled in [st]. *)
Definition static {E : Engine} (st st' : Proc E) : Prop :=
  args st' = args st /\
  board_options st' = board_options st /\
  log_disable st' = log_disable st /\
  np_random st' = np_random st /\
  constructed st' = constructed st /\
  (INFO <= log_disable st -> log_out st' = log_out st).

(** [m] relates every state it is started in to the state it exits in. *)
Definition keeps {E : Engine} {A : Type}
  (R : Proc E -> Proc E -> Prop) (m : M E A) : Prop :=
  forall st,
    match m st with
    | Ok _ st' => R st st'
    | Raise _ st' => R st st'
    | OutOfFuel => True
    end.

(** What every iteration of the tournament loop leaves alone: the
    configuration, the roster and the log threshold, and the log itself
    while [INFO] records are disabled. *)
Definition settled {E : Engine} (st st' : Proc E) : Prop :=
  args st' = args st /\
  board_options st' = board_options st /\
  log_disable st' = log_disable st /\
  (INFO <= log_disable st -> log_out st' = log_out st).

(** The board path given to [run] when the generator's raw draw is [raw]. *)
Definition drawn_board (roster : list string) (raw : Z) : string :=
  nth (Z.to_nat (raw mod Z.of_nat (List.length roster))) roster "".

(** The call of [World(...)] expected at loop index [i] for raw draw
    [raw]. *)
Definition expected_call (a : Args) (roster : list string) (i : nat)
  (raw : Z) : WorldArgs :=
  engine_call a (Z.of_nat i mod 2 =? 0) (Some (drawn_board roster raw)).

(** The argument record [reset] builds in state [st]: the board is the one
    supplied, or the configured [board_path] when none is. *)
Definition reset_call {E : Engine} (st : Proc E) (swap_players : bool)
  (board_fpath : option string) : WorldArgs :=
  engine_call (args st) swap_players
    match board_fpath with
    | None => board_path (args st)
    | Some b => Some b
    end.

(** The state in which [autoplay] starts its loop: the display warning has
    been logged if it applied, [display] is off and everything up to
    [CRITICAL] is disabled. *)
Definition loop_entry {E : Engine} (st : Proc E) : Proc E :=
  let warned :=
    if display (args st) && isEnabledFor st WARNING
    then with_log_out (log_out st ++ [(WARNING, MsgDisplayDisabled)]) st
    else st in
  with_log_disable CRITICAL (with_args (set_display false) warned).

(** A computation leaves through a return or through an exception, in
    state [st']. *)
Definition exits_in {S A : Type} (r : result S A) (st' : S) : Prop :=
  (exists a, r = Ok a st') \/ (exists e, r = Raise e st').

(** Between [st] and [st'] the log threshold is unchanged and the log has
    only grown, by records none of which is a per-match line. *)
Definition logs_only {E : Engine} (st st' : Proc E) : Prop :=
  log_disable st' = log_disable st /\
  exists extra,
    log_out st' = log_out st ++ extra /\
    forallb (fun r => negb (is_run_finished r)) extra = true.

(** The display warning, when [autoplay] emits it. *)
Definition display_warning (a : Args) : list LogRecord :=
  if display a then [(WARNING, MsgDisplayDisabled)] else [].

(** ** A small engine for concrete runs *)

Module Toy.

(** Agents move in turn, seat 1 first; a match lasts four turns.  An
    agent's score is the length of its name whichever seat it occupies, a
    turn takes it that many 1024ths of a second, and the agent named
    [crash] raises when asked to move. *)
Record state : Type := mkState {
  seat_1 : string;
  seat_2 : string;
  turn : nat;
  time_1 : list Q;
  time_2 : list Q
}.

Definition strength (agent : string) : Z := Z.of_nat (String.length agent).

Definition think_time (agent : string) : Q :=
  (inject_Z (strength agent) / 1024)%Q.

Definition init (wa : WorldArgs) : exn + state :=
  match wa_board_fpath wa with
  | None => inl (EngineError "no board")
  | Some _ =>
      inr {| seat_1 := wa_player_1 wa; seat_2 := wa_player_2 wa;
             turn := 0; time_1 := []; time_2 := [] |}
  end.

Definition step (w : state) : state * (exn + (bool * Z * Z)) :=
  let first := Nat.even (turn w) in
  let mover := if first then seat_1 w else seat_2 w in
  if String.eqb mover "crash" then (w, inl (EngineError "agent crashed"))
  else
    let w' :=
      {| seat_1 := seat_1 w; seat_2 := seat_2 w;
         turn := S (turn w);
         time_1 := if first then time_1 w ++ [think_time mover]
                   else time_1 w;
         time_2 := if first then time_2 w
                   else time_2 w ++ [think_time mover] |} in
    (w', inr ((4 <=? turn w')%nat, strength (seat_1 w), strength (seat_2 w))).

(** The engine after a full match between [a1] (seat 1) and [a2]. *)
Definition finished (a1 a2 : string) : state :=
  {| seat_1 := a1; seat_2 := a2; turn := 4;
     time_1 := [think_time a1; think_time a1];
     time_2 := [think_time a2; think_time a2] |}.

Definition engine : Engine :=
  {| World := state;
     World_init := init;
     World_step := step;
     World_p0_time := time_1;
     World_p1_time := time_2 |}.

Definition fs : FileSystem :=
  {| isdir := fun d => String.eqb d "boards";
     listdir := fun d =>
       if String.eqb d "boards" then ["a.csv"; "b.board"; "c.txt"] else [] |}.

Definition rng (n : nat) : Z := 7 * Z.of_nat n + 3.

Definition config (p1 p2 : string) (roster : option pyval) (runs : Z)
  : Args :=
  {| player_1 := p1;
     player_2 := p2;
     board_path := None;
     board_roster_dir := roster;
     display := true;
     display_delay := (4 # 10)%Q;
     display_save := false;
     display_save_path := "plots/";
     args_autoplay := true;
     autoplay_runs := runs |}.

(** [alice] against [bob] over the roster [boards], four runs. *)
Definition proc : Proc engine :=
  Simulator_init engine fs rng (config "alice" "bob" (Some (PyStr "boards")) 4).

(** The same tournament with an agent that raises. *)
Definition proc_crash : Proc engine :=
  Simulator_init engine fs rng (config "alice" "crash" (Some (PyStr "boards")) 4).

(** A roster directory that does not exist. *)
Definition proc_no_roster : Proc engine :=
  Simulator_init engine fs rng (config "alice" "bob" (Some (PyStr "nowhere")) 4).

End Toy.

(** ** The command line and the entry point *)

(** The two Python conversions that [get_args] names in [type=]: [int] and
    [float] applied to a string, [None] standing for the [ValueError] they
    raise.  ([str] is the identity.)  Floats are rationals here, so only
    finite values are covered. *)
Record Builtins : Type := mkBuiltins {
  py_int : string -> option Z;
  py_float : string -> option Q
}.

(** A command line as [argparse] sees it once split into known options:
    for each valued option the strings supplied for it, in order of
    occurrence (none when the option is absent), and for each
    [store_true] flag whether it occurs. *)
Record CommandLine : Type := mkCommandLine {
  cl_player_1 : list string;
  cl_player_2 : list string;
  cl_board_path : list string;
  cl_board_roster_dir : list string;
  cl_display : bool;
  cl_display_delay : list string;
  cl_display_save : bool;
  cl_display_save_path : list string;
  cl_autoplay : bool;
  cl_autoplay_runs : list string
}.

(** [argparse] converts every occurrence of an option with its [type]; a
    failing conversion is a usage error ([None]); the last occurrence
    wins.  [seen] is the value set so far. *)
Fixpoint convert_occurrences {A : Type} (type : string -> option A)
  (occurrences : list string) (seen : option A) : option (option A) :=
  match occurrences with
  | [] => Some seen
  | s :: rest =>
      match type s with
      | None => None
      | Some v => convert_occurrences type rest (Some v)
      end
  end.

(** The value [parse_args] stores for one valued option.  [default] is what
    the parser stores when the option does not occur: a string default is
    itself passed through [type] (and fails like an occurrence would), any
    other default is stored as it is. *)
Definition parse_valued {A : Type} (type : string -> option A)
  (occurrences : list string) (default : option A) : option A :=
  match convert_occurrences type occurrences None with
  | None => None
  | Some (Some v) => Some v
  | Some None => default
  end.

(** [get_args]: [None] when [parse_args] reports a usage error and exits.
    Each line is one [add_argument] call, with its [type] and its
    [default]. *)
Definition get_args (B : Builtins) (cl : CommandLine) : option Args :=
  match parse_valued Some (cl_player_1 cl) (Some "random_agent") with
  | None => None
  | Some p1 =>
  match parse_valued Some (cl_player_2 cl) (Some "random_agent") with
  | None => None
  | Some p2 =>
  match parse_valued (fun s => Some (Some s)) (cl_board_path cl)
                     (Some None) with
  | None => None
  | Some bp =>
  match parse_valued (py_int B) (cl_board_roster_dir cl)
                     (py_int B "boards/") with
  | None => None
  | Some rd =>
  match parse_valued (py_float B) (cl_display_delay cl)
                     (Some (4 # 10)%Q) with
  | None => None
  | Some dd =>
  match parse_valued Some (cl_display_save_path cl) (Some "plots/") with
  | None => None
  | Some dsp =>
  match parse_valued (py_int B) (cl_autoplay_runs cl) (Some 100) with
  | None => None
  | Some runs =>
      Some {| player_1 := p1;
              player_2 := p2;
              board_path := bp;
              board_roster_dir := Some (PyInt rd);
              display := cl_display cl;
              display_delay := dd;
              display_save := cl_display_save cl;
              display_save_path := dsp;
              args_autoplay := cl_autoplay cl;
              autoplay_runs := runs |}
  end end end end end end end.

(** The [if __name__ == "__main__"] block, started in a fresh process whose
    generator state is [g]: [None] when [get_args] exits with a usage
    error, otherwise the outcome of [autoplay] or of [run]. *)
Definition main (E : Engine) (B : Builtins) (fs : FileSystem)
  (g : nat -> Z) (fuel : nat) (cl : CommandLine)
  : option (result (Proc E) unit) :=
  match get_args B cl with
  | None => None
  | Some a =>
      let simulator := Simulator_init E fs g a in
      Some (if args_autoplay a
            then bind (autoplay fuel) (fun _ => ret tt) simulator
            else bind (run fuel false None) (fun _ => ret tt) simulator)
  end.

(** ** More vocabulary *)

(** From [w0] on, no call of [step()] ever raises or reports a terminal
    state. *)
Definition never_ends (E : Engine) (w0 : World E) : Prop :=
  exists I : World E -> Prop,
    I w0 /\
    forall w, I w ->
      exists w' a b, World_step E w = (w', inr (false, a, b)) /\ I w'.

(** Starting from [w], the [n]-th call of [step()] raises [e], leaving the
    engine in [w']; the calls before it report non-terminal states. *)
Inductive fails_after (E : Engine)
  : World E -> nat -> World E -> exn -> Prop :=
| fails_now : forall w w' e,
    World_step E w = (w', inl e) ->
    fails_after E w 1 w' e
| fails_later : forall w w1 a b n w' e,
    World_step E w = (w1, inr (false, a, b)) ->
    fails_after E w1 n w' e ->
    fails_after E w (S n) w' e.

(** Whenever the engine reports a terminal state, seat 1 has the strictly
    higher score. *)
Definition seat_1_always_wins (E : Engine) : Prop :=
  forall w w' s0 s1, World_step E w = (w', inr (true, s0, s1)) -> s1 < s0.

(** [prefix] is an initial segment of [s]. *)
Definition has_prefix (s prefix : string) : Prop :=
  exists rest : string, s = (prefix ++ rest)%string.

(** Nothing but the engine differs between [st] and [st']. *)
Definition engine_only {E : Engine} (st st' : Proc E) : Prop :=
  args st' = args st /\
  board_options st' = board_options st /\
  log_disable st' = log_disable st /\
  log_out st' = log_out st /\
  np_random st' = np_random st /\
  constructed st' = constructed st.

(** The state [reset] leaves before the first step: the call is on record
    and [self.world] is the new engine [w]. *)
Definition after_reset {E : Engine} (st : Proc E) (swap_players : bool)
  (board_fpath : option string) (w : World E) : Proc E :=
  with_world w
    (with_constructed
       (constructed st ++ [reset_call st swap_players board_fpath]) st).

(** The match schedule of [autoplay] started in [st]: the call of
    [World(...)] made at loop index [i]. *)
Definition scheduled_call {E : Engine} (st : Proc E) (i : nat) : WorldArgs :=
  engine_call (set_display false (args st)) (Z.of_nat i mod 2 =? 0)
    (Some (drawn_board (board_options st) (np_random st i))).

(** The accumulators with the two agents exchanged. *)
Definition mirror (s : Stats) : Stats :=
  {| p1_win_count := p2_win_count s;
     p2_win_count := p1_win_count s;
     p1_times := p2_times s;
     p2_times := p1_times s |}.





(** ** More engines and a parser for concrete runs *)

Module Stuck.

(** An engine whose matches never end. *)
Definition engine : Engine :=
  {| World := unit;
     World_init := fun _ => inr tt;
     World_step := fun w => (w, inr (false, 0, 0));
     World_p0_time := fun _ => [];
     World_p1_time := fun _ => [] |}.

End Stuck.

Module FirstMover.

(** An engine whose matches end at the first step with a win for seat 1;
    each seat has taken one timed turn. *)
Definition engine : Engine :=
  {| World := unit;
     World_init := fun _ => inr tt;
     World_step := fun w => (w, inr (true, 1, 0));
     World_p0_time := fun _ => [(1 # 10)%Q];
     World_p1_time := fun _ => [(2 # 10)%Q] |}.

Definition proc (runs : Z) : Proc engine :=
  Simulator_init engine Toy.fs Toy.rng
    (Toy.config "alice" "bob" (Some (PyStr "boards")) runs).

End FirstMover.

Module Cli.

Definition digit (c : ascii) : option Z :=
  let n := Z.of_nat (nat_of_ascii c) in
  if (48 <=? n) && (n <=? 57) then Some (n - 48) else None.

Fixpoint digits (s : string) (acc : Z) : option Z :=
  match s with
  | EmptyString => Some acc
  | String c rest =>
      match digit c with
      | None => None
      | Some d => digits rest (10 * acc + d)
      end
  end.

(** Unsigned decimal numerals only: enough of [int] for the examples. *)
Definition int (s : string) : option Z :=
  match s with
  | EmptyString => None
  | _ => digits s 0
  end.

Definition builtins : Builtins :=
  {| py_int := int;
     py_float := fun s => option_map inject_Z (int s) |}.

(** [python simulator.py] *)
Definition bare : CommandLine :=
  {| cl_player_1 := []; cl_player_2 := []; cl_board_path := [];
     cl_board_roster_dir := []; cl_display := false;
     cl_display_delay := []; cl_display_save := false;
     cl_display_save_path := []; cl_autoplay := false;
     cl_autoplay_runs := [] |}.

(** [python simulator.py --autoplay --board_roster_dir 7 --autoplay_runs 4] *)
Definition tournament : CommandLine :=
  {| cl_player_1 := []; cl_player_2 := []; cl_board_path := [];
     cl_board_roster_dir := ["7"]; cl_display := false;
     cl_display_delay := []; cl_display_save := false;
     cl_display_save_path := []; cl_autoplay := true;
     cl_autoplay_runs := ["4"] |}.

End Cli.

Module Hardware.

(** The same rounding computed with the processor's binary64 arithmetic,
    to compare [binary64] and [np_round] with. *)

(** The rational that a finite float is. *)
Definition to_Q (f : float) : option Q :=
  match Prim2SF f with
  | S754_zero _ => Some 0%Q
  | S754_finite sign m e =>
      Some ((if sign then -1 else 1) * inject_Z (Zpos m) * pow2 e)%Q
  | _ => None
  end.

(** The float [n / d] for small [n >= 0] and [d > 0]. *)
Definition ratio (n d : Z) : float :=
  PrimFloat.div (PrimFloat.of_uint63 (Uint63.of_Z n))
                (PrimFloat.of_uint63 (Uint63.of_Z d)).

Definition two52 : float := 4503599627370496%float.

(** [rint] for a float [x >= 0]: below [2 ** 52], adding and subtracting
    [2 ** 52] rounds to the nearest integer, ties to even. *)
Definition rint (x : float) : float :=
  if PrimFloat.ltb x two52
  then PrimFloat.sub (PrimFloat.add x two52) two52
  else x.

(** [rint(x * 1e5) / 1e5] *)
Definition round5 (x : float) : float :=
  PrimFloat.div (rint (PrimFloat.mul x 100000%float)) 100000%float.

(** Both models agree with the hardware on [n / d]. *)
Definition agree (nd : Z * Z) : bool :=
  let f := ratio (fst nd) (snd nd) in
  match to_Q f, to_Q (round5 f) with
  | Some q, Some r =>
      Qeq_bool q (binary64 (fst nd # Z.to_pos (snd nd)))
      && Qeq_bool r (np_round q 5)
  | _, _ => false
  end.

Definition samples : list (Z * Z) :=
  [(1, 10); (2, 10); (5, 100); (5, 1000000); (15, 1000000); (25, 1000000);
   (5, 1024); (3, 1024); (1, 3); (2, 3); (488, 100000); (123456789, 1000);
   (1, 1000000007); (999999, 100000000); (0, 1); (1, 1); (7, 2);
   (4503599627370497, 2); (123457, 8192); (1, 1125899906842624)].

End Hardware.

(** * Proofs *)

(** ** Strings and the roster *)

Lemma endswith_has_suffix (s suffix : string) :
  endswith s suffix = true <-> has_suffix s suffix.
Proof.
  unfold has_suffix. induction s as [|c s IH]; cbn [endswith].
  - destruct (String.eqb_spec "" suffix) as [<-|Hne].
    + split; [exists ""; reflexivity | trivial].
    + split; [discriminate|].
      intros [p Hp]. destruct p; simpl in Hp; [congruence | discriminate].
  - destruct (String.eqb_spec (String c s) suffix) as [<-|Hne].
    + split; [exists ""; reflexivity | trivial].
    + rewrite IH. split.
      * intros [p ->]. exists (String c p). reflexivity.
      * intros [p Hp]. destruct p as [|c' p]; simpl in Hp.
        -- congruence.
        -- injection Hp as _ ->. exists p. reflexivity.
Qed.

Lemma is_board_file_spec (fname : string) :
  is_board_file fname = true <->
  has_suffix fname ".csv" \/ has_suffix fname ".board".
Proof.
  unfold is_board_file.
  rewrite orb_true_iff, !endswith_has_suffix. reflexivity.
Qed.

(** C7: roster discovery, performed by [__init__] on a string-valued
    [board_roster_dir]: when the directory exists, the roster consists of
    exactly the directory entries whose name ends with [.csv] or [.board],
    each joined to the directory path, and nothing else; when the path does
    not exist or is not a directory, the roster is empty.  [__init__] is a
    total function here: no outcome of it is an error. *)
Theorem roster_discovery (E : Engine) (fs : FileSystem) (g : nat -> Z)
  (a : Args) (dir : string) :
  board_roster_dir a = Some (PyStr dir) ->
  let roster := board_options (Simulator_init E fs g a) in
  (isdir fs dir = true -> dir <> "" ->
   roster = map (path_join dir) (filter is_board_file (listdir fs dir)) /\
   forall p, In p roster <->
             exists fname, In fname (listdir fs dir) /\
                           (has_suffix fname ".csv" \/
                            has_suffix fname ".board") /\
                           p = path_join dir fname) /\
  (isdir fs dir = false -> roster = []).
Proof.
  intros Hdir roster. subst roster.
  unfold Simulator_init, init_board_options; cbn [board_options].
  rewrite Hdir. cbn [truthy].
  split.
  - intros Hd Hne. apply String.eqb_neq in Hne. rewrite Hne, Hd. cbn [negb].
    split; [reflexivity|].
    intros p. rewrite in_map_iff. split.
    + intros (f & <- & Hf). apply filter_In in Hf as [Hin Hb].
      exists f. rewrite <- is_board_file_spec. auto.
    + intros (f & Hin & Hb & ->). exists f. split; [reflexivity|].
      apply filter_In. rewrite is_board_file_spec. auto.
  - intros Hd. rewrite Hd. destruct (negb (dir =? "")%string); reflexivity.
Qed.

(** The listing [a.csv, b.board, c.txt] and a missing directory. *)
Lemma roster_discovery_witness :
  board_options Toy.proc = ["boards/a.csv"; "boards/b.board"] /\
  board_options Toy.proc_no_roster = [].
Proof.
  split.
  - destruct (roster_discovery Toy.engine Toy.fs Toy.rng
                (Toy.config "alice" "bob" (Some (PyStr "boards")) 4)
                "boards" eq_refl) as [H _].
    destruct (H eq_refl ltac:(discriminate)) as [Heq _]. exact Heq.
  - destruct (roster_discovery Toy.engine Toy.fs Toy.rng
                (Toy.config "alice" "bob" (Some (PyStr "nowhere")) 4)
                "nowhere" eq_refl) as [_ H].
    exact (H eq_refl).
Defined.

(** ** Effects of the methods on the process state *)

Section Effects.

Context {E : Engine}.

Implicit Types st : Proc E.

Lemma static_refl st : static st st.
Proof. unfold static. intuition. Qed.

Lemma static_trans st1 st2 st3 :
  static st1 st2 -> static st2 st3 -> static st1 st3.
Proof.
  unfold static.
  intros (Ha & Hb & Hd & Hr & Hc & Hl) (Ha' & Hb' & Hd' & Hr' & Hc' & Hl').
  repeat split; try congruence.
  intros H. rewrite Hl', Hl; auto. rewrite Hd. exact H.
Qed.

Lemma keeps_bind {A B : Type} (m : M E A) (k : A -> M E B) :
  keeps static m -> (forall a, keeps static (k a)) ->
  keeps static (bind m k).
Proof.
  intros Hm Hk st. unfold bind. specialize (Hm st).
  destruct (m st) as [a st1|e st1|]; auto.
  specialize (Hk a st1).
  destruct (k a st1) as [b st2|e st2|]; eauto using static_trans.
Qed.

Lemma keeps_ret {A : Type} (a : A) : keeps static (@ret E A a).
Proof. intros st. apply static_refl. Qed.

Lemma keeps_raise {A : Type} (e : exn) : keeps static (@raise E A e).
Proof. intros st. apply static_refl. Qed.

Lemma keeps_gets {A : Type} (f : Proc E -> A) : keeps static (gets f).
Proof. intros st. apply static_refl. Qed.

Lemma static_with_world st w : static st (with_world w st).
Proof. unfold static; cbn. intuition. Qed.

Lemma keeps_world_step : keeps static (@world_step E).
Proof.
  intros st. unfold world_step.
  destruct (world st) as [w|]; [|apply static_refl].
  destruct (World_step E w) as [w' [e|x]]; apply static_with_world.
Qed.

Lemma keeps_log_info (msg : LogMsg) : keeps static (@log E INFO msg).
Proof.
  intros st. unfold log.
  destruct (isEnabledFor st INFO) eqn:Hen; [|apply static_refl].
  unfold static; cbn. repeat split; auto.
  intros H. unfold isEnabledFor in Hen.
  apply andb_true_iff in Hen as [Hen _].
  apply negb_true_iff, Z.leb_gt in Hen. lia.
Qed.

Lemma keeps_step_until_end (fuel : nat) (r : bool * Z * Z) :
  keeps static (@step_until_end E fuel r).
Proof.
  revert r. induction fuel as [|fuel IH]; intros [[is_end p0] p1];
    cbn [step_until_end]; destruct is_end; try apply keeps_ret.
  - intros st. exact I.
  - apply keeps_bind; [apply keeps_world_step | exact IH].
Qed.

Ltac keeps_static :=
  repeat first
    [ apply keeps_ret | apply keeps_raise | apply keeps_gets
    | apply keeps_world_step | apply keeps_log_info
    | apply keeps_step_until_end
    | apply keeps_bind; [|intros]
    | match goal with |- keeps static (match ?x with _ => _ end) =>
        destruct x end ].

Lemma reset_unfold swap_players board_fpath st :
  reset swap_players board_fpath st =
  let st1 := with_constructed
               (constructed st ++ [reset_call st swap_players board_fpath])
               st in
  match World_init E (reset_call st swap_players board_fpath) with
  | inl e => Raise e st1
  | inr w => Ok tt (with_world w st1)
  end.
Proof. unfold reset, reset_call, engine_call. destruct swap_players; reflexivity. Qed.

(** Everything of [run] after [reset]. *)
Lemma run_unfold fuel swap_players board_fpath st :
  run fuel swap_players board_fpath st =
  match reset swap_players board_fpath st with
  | Ok _ st1 =>
      bind world_step (fun r =>
        bind (step_until_end fuel r) (fun scores =>
          bind (gets args) (fun a =>
            bind (log INFO (MsgRunFinished (player_1 a) (fst scores)
                                           (player_2 a) (snd scores)))
              (fun _ =>
                 bind (gets world) (fun w =>
                   match w with
                   | None => raise AttributeError
                   | Some w =>
                       ret (fst scores, snd scores,
                            World_p0_time E w, World_p1_time E w)
                   end))))) st1
  | Raise e st1 => Raise e st1
  | OutOfFuel => OutOfFuel
  end.
Proof. reflexivity. Qed.

(** [run] builds one engine and otherwise leaves the static part alone. *)
Lemma run_static fuel swap_players board_fpath st :
  match run fuel swap_players board_fpath st with
  | Ok _ st' | Raise _ st' =>
      static (with_constructed
                (constructed st ++ [reset_call st swap_players board_fpath])
                st) st'
  | OutOfFuel => True
  end.
Proof.
  rewrite run_unfold, reset_unfold. cbv zeta.
  destruct (World_init E _) as [e|w]; [apply static_refl|].
  match goal with |- match ?m ?s with _ => _ end =>
    assert (Hk : keeps static m) by keeps_static; specialize (Hk s);
    destruct (m s) end; auto;
    (eapply static_trans; [apply static_with_world | exact Hk]).
Qed.

Lemma ends_after_pos w n w' s0 s1 :
  ends_after E w n w' s0 s1 -> (1 <= n)%nat.
Proof. destruct 1; lia. Qed.

(** With enough fuel the step loop stops at the first terminal report. *)
Lemma bind_assoc {A B C : Type} (m : M E A) (f : A -> M E B)
  (k : B -> M E C) st :
  bind m (fun a => bind (f a) k) st = bind (bind m f) k st.
Proof.
  unfold bind. destruct (m st) as [a st1|e st1|]; reflexivity.
Qed.

Lemma world_step_ok st w w' x :
  world st = Some w -> World_step E w = (w', inr x) ->
  world_step st = Ok x (with_world w' st).
Proof. intros Hw Hs. unfold world_step. rewrite Hw, Hs. reflexivity. Qed.

Lemma steps_reach_end w n w' s0 s1 :
  ends_after E w n w' s0 s1 ->
  forall fuel st, world st = Some w -> (n <= S fuel)%nat ->
  bind world_step (step_until_end fuel) st = Ok (s0, s1) (with_world w' st).
Proof.
  induction 1 as [w w' s0 s1 Hstep | w w1 a b n w' s0 s1 Hstep Hrest IH];
    intros fuel st Hw Hfuel; unfold bind at 1;
    rewrite (world_step_ok _ _ _ _ Hw Hstep).
  - destruct fuel; reflexivity.
  - pose proof (ends_after_pos _ _ _ _ _ Hrest).
    destruct fuel as [|fuel]; [lia|].
    exact (IH fuel (with_world w1 st) eq_refl ltac:(lia)).
Qed.

End Effects.

(** C9: for an engine that [reset] can build and whose [step()] first
    reports a terminal state at its [n]-th call, [run] returns (given a
    step budget of at least [n]) exactly the two scores of that [n]-th call
    together with the two timing sequences of the engine as that call left
    it.  The engine is built once, with the seats exchanged iff
    [swap_players], and on the supplied board or, when none is supplied, on
    the configuration's [board_path]. *)
Theorem run_returns_terminal_result (E : Engine) (fuel : nat)
  (swap_players : bool) (board_fpath : option string) (st : Proc E)
  (w0 w' : World E) (n : nat) (s0 s1 : Z) :
  World_init E (reset_call st swap_players board_fpath) = inr w0 ->
  ends_after E w0 n w' s0 s1 ->
  (n <= S fuel)%nat ->
  exists st',
    run fuel swap_players board_fpath st =
      Ok (s0, s1, World_p0_time E w', World_p1_time E w') st' /\
    world st' = Some w' /\
    constructed st' =
      constructed st ++ [reset_call st swap_players board_fpath] /\
    wa_board_fpath (reset_call st swap_players None) = board_path (args st) /\
    (forall b, wa_board_fpath (reset_call st swap_players (Some b)) = Some b).
Proof.
  intros Hinit Hend Hfuel.
  rewrite run_unfold, reset_unfold, Hinit. cbv zeta.
  set (st1 := with_world w0 _).
  pose proof (steps_reach_end _ _ _ _ _ Hend fuel st1 eq_refl Hfuel) as Hsteps.
  cbv beta iota.
  rewrite bind_assoc. unfold bind at 1. rewrite Hsteps.
  unfold bind, gets. cbn [fst snd].
  unfold log. destruct (isEnabledFor _ INFO); cbn;
    eexists; repeat split; reflexivity.
Qed.

(** ** The tournament loop *)

Section Loop.

Context {E : Engine}.

Implicit Types st : Proc E.

Lemma settled_refl st : settled st st.
Proof. unfold settled. intuition. Qed.

Lemma settled_trans st1 st2 st3 :
  settled st1 st2 -> settled st2 st3 -> settled st1 st3.
Proof.
  unfold settled. intros (Ha & Hb & Hd & Hl) (Ha' & Hb' & Hd' & Hl').
  repeat split; try congruence.
  intros H. rewrite Hl', Hl; auto. rewrite Hd. exact H.
Qed.

Lemma drawn_board_index (roster : list string) (raw : Z) :
  roster <> [] ->
  let n := Z.of_nat (List.length roster) in
  0 <= raw mod n < n /\
  py_index roster (raw mod n) = Some (drawn_board roster raw).
Proof.
  intros Hne n.
  assert (Hn : 0 < n) by (subst n; destruct roster; [congruence | cbn; lia]).
  pose proof (Z.mod_pos_bound raw n Hn) as Hb. split; [exact Hb|].
  unfold py_index. fold n.
  replace ((0 <=? raw mod n) && (raw mod n <? n)) with true
    by (symmetry; apply andb_true_iff; split; [apply Z.leb_le | apply Z.ltb_lt]; lia).
  unfold drawn_board. fold n. apply nth_error_nth'.
  subst n. lia.
Qed.

(** The state in which [run] is entered at an iteration started in [st]:
    one raw draw has been consumed. *)
Lemma autoplay_body_unfold fuel i s st :
  autoplay_body fuel i s st =
  let swap_players := Z.of_nat i mod 2 =? 0 in
  match board_options st with
  | [] => Raise (ValueError "high <= 0") st
  | _ :: _ =>
      match run fuel swap_players
              (Some (drawn_board (board_options st) (np_random st 0)))
              (with_np_random (fun n => np_random st (S n)) st) with
      | Ok r st' => Ok (tally s (unswap swap_players r)) st'
      | Raise e st' => Raise e st'
      | OutOfFuel => OutOfFuel
      end
  end.
Proof.
  unfold autoplay_body. unfold bind at 1. unfold gets.
  unfold bind at 1. unfold randint.
  destruct (board_options st) as [|b roster] eqn:Hopts; [reflexivity|].
  assert (Hne : b :: roster <> []) by discriminate.
  destruct (drawn_board_index (b :: roster) (np_random st 0) Hne) as [_ Hidx].
  replace (Z.of_nat (List.length (b :: roster)) <=? 0) with false
    by (symmetry; apply Z.leb_gt; cbn [List.length]; lia).
  unfold bind at 1. unfold index. rewrite Hidx. unfold ret at 1.
  unfold bind.
  destruct (run _ _ _ _); reflexivity.
Qed.

Lemma keeps_autoplay_body fuel i s :
  keeps settled (@autoplay_body E fuel i s).
Proof.
  intros st. rewrite autoplay_body_unfold. cbv zeta.
  destruct (board_options st) as [|b roster] eqn:Hopts; [apply settled_refl|].
  rewrite <- Hopts.
  match goal with |- context [run ?f ?sw ?b ?s1] =>
    pose proof (run_static f sw b s1) as Hrun; destruct (run f sw b s1) end;
    auto; unfold static in Hrun; cbn in Hrun; unfold settled; intuition.
Qed.

Lemma keeps_for_each fuel indices :
  forall s, keeps settled (for_each (@autoplay_body E fuel) indices s).
Proof.
  induction indices as [|i rest IH]; intros s st; cbn [for_each].
  - apply settled_refl.
  - unfold bind. pose proof (keeps_autoplay_body fuel i s st) as Hb.
    destruct (autoplay_body fuel i s st) as [s1 st1|e st1|]; auto.
    specialize (IH s1 st1).
    destruct (for_each _ rest s1 st1); eauto using settled_trans.
Qed.

Lemma keeps_autoplay_loop fuel : keeps settled (@autoplay_loop E fuel).
Proof.
  intros st. unfold autoplay_loop, bind, gets. apply keeps_for_each.
Qed.

End Loop.

(** ** [autoplay] as a whole *)

Section Autoplay.

Context {E : Engine}.

Implicit Types st : Proc E.

Lemma loop_entry_fields st :
  args (loop_entry st) = set_display false (args st) /\
  board_options (loop_entry st) = board_options st /\
  world (loop_entry st) = world st /\
  log_disable (loop_entry st) = CRITICAL /\
  np_random (loop_entry st) = np_random st /\
  constructed (loop_entry st) = constructed st /\
  log_out (loop_entry st) =
    if display (args st) && isEnabledFor st WARNING
    then log_out st ++ [(WARNING, MsgDisplayDisabled)]
    else log_out st.
Proof.
  unfold loop_entry.
  destruct (display (args st) && isEnabledFor st WARNING); cbn;
    repeat split; reflexivity.
Qed.

Lemma loop_entry_runs st :
  autoplay_runs (args (loop_entry st)) = autoplay_runs (args st).
Proof. destruct (loop_entry_fields st) as [-> _]. reflexivity. Qed.

Lemma report_unfold player agent credit times st :
  report player agent credit times st =
  if autoplay_runs (args st) =? 0 then Raise ZeroDivisionError st
  else match times with
       | [] => Raise (ValueError "zero-size array to reduction operation maximum which has no identity") st
       | x :: xs =>
           log INFO (MsgSummary player (agent (args st))
                       (binary64 (credit / inject_Z (autoplay_runs (args st))))
                       (np_round (max_from x xs) 5)) st
       end.
Proof.
  unfold report, bind, gets, py_div.
  destruct (autoplay_runs (args st) =? 0); [reflexivity|].
  unfold ret at 1. destruct times; reflexivity.
Qed.

Lemma autoplay_unfold fuel st :
  autoplay fuel st =
  match autoplay_loop fuel (loop_entry st) with
  | Ok s st1 =>
      bind (report 1 player_1 (p1_win_count s) (p1_times s)) (fun _ =>
        bind (report 2 player_2 (p2_win_count s) (p2_times s)) (fun _ =>
          ret s)) (with_log_disable (log_disable st) st1)
  | Raise e st1 => Raise e (with_log_disable (log_disable st) st1)
  | OutOfFuel => OutOfFuel
  end.
Proof.
  unfold autoplay, loop_entry.
  unfold bind at 1. unfold gets at 1. unfold bind at 1.
  destruct (display (args st)); cbn [andb].
  - unfold log at 1. destruct (isEnabledFor st WARNING);
      unfold bind at 1; unfold modify; unfold bind at 1;
      unfold all_logging_disabled; cbn [log_disable with_args with_log_out];
      destruct (autoplay_loop _ _); reflexivity.
  - unfold ret at 1. unfold bind at 1; unfold modify; unfold bind at 1;
      unfold all_logging_disabled; cbn [log_disable with_args];
      destruct (autoplay_loop _ _); reflexivity.
Qed.

(** Each match adds one unit of credit in total. *)
Lemma tally_total (s : Stats) (r : MatchResult) :
  (p1_win_count (tally s r) + p2_win_count (tally s r) ==
   p1_win_count s + p2_win_count s + 1)%Q.
Proof.
  destruct r as [[[a b] ta] tb]. unfold tally.
  destruct (b <? a); [|destruct (a <? b)]; cbn [p1_win_count p2_win_count];
    ring.
Qed.

Lemma tally_times (s : Stats) (a b : Z) (ta tb : list Q) :
  p1_times (tally s (a, b, ta, tb)) = p1_times s ++ ta /\
  p2_times (tally s (a, b, ta, tb)) = p2_times s ++ tb.
Proof.
  unfold tally. destruct (b <? a); [|destruct (a <? b)]; split; reflexivity.
Qed.

Lemma for_each_total fuel indices :
  forall s st s' st',
    for_each (@autoplay_body E fuel) indices s st = Ok s' st' ->
    (p1_win_count s' + p2_win_count s' ==
     p1_win_count s + p2_win_count s
     + inject_Z (Z.of_nat (List.length indices)))%Q.
Proof.
  induction indices as [|i rest IH]; intros s st s' st' H; cbn [for_each] in H.
  - injection H as <- _. cbn. ring.
  - unfold bind in H. rewrite autoplay_body_unfold in H. cbv zeta in H.
    destruct (board_options st); [discriminate|].
    destruct (run _ _ _ _) as [r st1|e st1|]; try discriminate.
    apply IH in H. rewrite H, tally_total.
    cbn [List.length]. rewrite Nat2Z.inj_succ, <- Z.add_1_l, inject_Z_plus.
    ring.
Qed.

Lemma autoplay_ok_loop fuel st s st' :
  autoplay fuel st = Ok s st' ->
  exists st1,
    autoplay_loop fuel (loop_entry st) = Ok s st1 /\
    bind (report 1 player_1 (p1_win_count s) (p1_times s)) (fun _ =>
      report 2 player_2 (p2_win_count s) (p2_times s))
      (with_log_disable (log_disable st) st1) = Ok tt st'.
Proof.
  rewrite autoplay_unfold.
  destruct (autoplay_loop fuel (loop_entry st)) as [s0 st1|e st1|];
    try discriminate.
  unfold bind. intros H.
  destruct (report 1 _ _ _ _) as [[] st2|e st2|] eqn:H1; try discriminate.
  destruct (report 2 _ _ _ _) as [[] st3|e st3|] eqn:H2; try discriminate.
  injection H as <- <-. exists st1. split; [reflexivity|].
  rewrite H1. exact H2.
Qed.

End Autoplay.

(** C1: when [autoplay] configured for [N >= 1] runs returns, the two win
    credits add up to [N] (exactly, over the rationals). *)
Theorem autoplay_credits_sum (E : Engine) (fuel : nat) (st : Proc E)
  (s : Stats) (st' : Proc E) (N : Z) :
  autoplay_runs (args st) = N ->
  1 <= N ->
  autoplay fuel st = Ok s st' ->
  (p1_win_count s + p2_win_count s == inject_Z N)%Q.
Proof.
  intros HN Hpos H. apply autoplay_ok_loop in H as (st1 & Hloop & _).
  unfold autoplay_loop, bind, gets in Hloop.
  apply for_each_total in Hloop. rewrite Hloop.
  rewrite length_seq, loop_entry_runs, HN, Z2Nat.id by lia.
  cbn [stats0 p1_win_count p2_win_count]. ring.
Qed.

(** Four runs of [alice] against [bob]. *)
Lemma autoplay_credits_sum_witness :
  match autoplay 10 Toy.proc with
  | Ok s _ => (p1_win_count s + p2_win_count s == 4)%Q
  | _ => False
  end.
Proof.
  destruct (autoplay 10 Toy.proc) as [s st'|e st'|] eqn:H.
  - exact (autoplay_credits_sum Toy.engine 10 Toy.proc s st' 4
             eq_refl ltac:(discriminate) H).
  - vm_compute in H. discriminate H.
  - vm_compute in H. discriminate H.
Defined.

(** C4: in an iteration that completes, let [a] and [b] be the scores of
    agent 1 and agent 2 after the exchange.  If [a = b] both credits grow
    by one half; if [a > b] agent 1 gains 1 and agent 2 nothing; if
    [a < b] agent 2 gains 1 and agent 1 nothing. *)
Theorem tie_and_win_credit (E : Engine) (fuel i : nat) (s : Stats)
  (st : Proc E) (s' : Stats) (st' : Proc E) :
  autoplay_body fuel i s st = Ok s' st' ->
  exists (r : MatchResult) (a b : Z) (ta tb : list Q),
    run fuel (Z.of_nat i mod 2 =? 0)
        (Some (drawn_board (board_options st) (np_random st 0)))
        (with_np_random (fun n => np_random st (S n)) st) = Ok r st' /\
    unswap (Z.of_nat i mod 2 =? 0) r = (a, b, ta, tb) /\
    (a = b ->
     p1_win_count s' = (p1_win_count s + (1 # 2))%Q /\
     p2_win_count s' = (p2_win_count s + (1 # 2))%Q) /\
    (a > b ->
     p1_win_count s' = (p1_win_count s + 1)%Q /\
     p2_win_count s' = p2_win_count s) /\
    (a < b ->
     p1_win_count s' = p1_win_count s /\
     p2_win_count s' = (p2_win_count s + 1)%Q).
Proof.
  rewrite autoplay_body_unfold. cbv zeta. intros H.
  destruct (board_options st) as [|b0 roster] eqn:Hopts; [discriminate|].
  rewrite <- Hopts in *.
  destruct (run _ _ _ _) as [r st1|e st1|]; try discriminate.
  injection H as <- <-.
  destruct (unswap (Z.of_nat i mod 2 =? 0) r) as [[[a b] ta] tb] eqn:Hr.
  exists r, a, b, ta, tb. split; [reflexivity|]. split; [exact Hr|].
  unfold tally.
  destruct (Z.ltb_spec b a); [|destruct (Z.ltb_spec a b)];
    cbn [p1_win_count p2_win_count]; repeat split; intros; try lia;
    reflexivity.
Qed.

(** Iteration 0 of [alice] against [bob]: [alice] scores 5 and [bob] 3. *)
Lemma tie_and_win_credit_witness :
  match autoplay_body 10 0 stats0 (loop_entry Toy.proc) with
  | Ok s' _ => p1_win_count s' = (0 + 1)%Q /\ p2_win_count s' = 0%Q
  | _ => False
  end.
Proof.
  destruct (autoplay_body 10 0 stats0 (loop_entry Toy.proc))
    as [s' st'|e st'|] eqn:H.
  - destruct (tie_and_win_credit Toy.engine 10 0 stats0
                (loop_entry Toy.proc) s' st' H)
      as (r & a & b & ta & tb & Hrun & Hun & _ & Hgt & _).
    vm_compute in Hrun. injection Hrun as <- _.
    vm_compute in Hun. injection Hun as <- <- _ _.
    apply Hgt. reflexivity.
  - vm_compute in H. discriminate H.
  - vm_compute in H. discriminate H.
Defined.

(** C2: in an iteration that completes, one engine is built and [run]
    returns the seat-1 and seat-2 scores and timings [(sc1, sc2, t1, t2)].
    When [swap_players] holds ([i] even), seat 2 was given to the agent
    named [player_1] and seat 1 to [player_2], and the accumulators are
    updated with the exchanged tuple [(sc2, sc1, t2, t1)]; otherwise the
    seats follow the configuration and the tuple is used as returned.  In
    both cases the first credit and the first timing aggregate receive the
    score and the timings of the seat held by [player_1], the second ones
    those of the seat held by [player_2]. *)
Theorem swap_restores_logical_agents (E : Engine) (fuel i : nat) (s : Stats)
  (st : Proc E) (s' : Stats) (st' : Proc E) :
  autoplay_body fuel i s st = Ok s' st' ->
  let swap_players := Z.of_nat i mod 2 =? 0 in
  exists (wa : WorldArgs) (sc1 sc2 : Z) (t1 t2 : list Q),
    run fuel swap_players
        (Some (drawn_board (board_options st) (np_random st 0)))
        (with_np_random (fun n => np_random st (S n)) st)
      = Ok (sc1, sc2, t1, t2) st' /\
    constructed st' = constructed st ++ [wa] /\
    (if swap_players then wa_player_2 wa else wa_player_1 wa)
      = player_1 (args st) /\
    (if swap_players then wa_player_1 wa else wa_player_2 wa)
      = player_2 (args st) /\
    s' = tally s (if swap_players then (sc2, sc1, t2, t1)
                  else (sc1, sc2, t1, t2)) /\
    p1_times s' = p1_times s ++ (if swap_players then t2 else t1) /\
    p2_times s' = p2_times s ++ (if swap_players then t1 else t2).
Proof.
  rewrite autoplay_body_unfold. cbv zeta. intros H.
  destruct (board_options st) as [|b0 roster] eqn:Hopts; [discriminate|].
  rewrite <- Hopts in *.
  match type of H with context [run ?f ?sw ?b ?s1] =>
    pose proof (run_static f sw b s1) as Hst;
    destruct (run f sw b s1) as [r st1|e st1|]; try discriminate end.
  injection H as <- <-.
  destruct r as [[[sc1 sc2] t1] t2].
  destruct Hst as (_ & _ & _ & _ & Hc & _). cbn in Hc.
  eexists _, sc1, sc2, t1, t2. split; [reflexivity|].
  split; [exact Hc|].
  destruct (Z.of_nat i mod 2 =? 0); cbn [reset_call engine_call wa_player_1
    wa_player_2 unswap]; repeat split; try reflexivity; apply tally_times.
Qed.

(** Iteration 0 is swapped: [bob] sits in seat 1 and scores 3 there, and
    [alice], in seat 2, is credited with the win. *)
Lemma swap_restores_logical_agents_witness :
  match autoplay_body 10 0 stats0 (loop_entry Toy.proc) with
  | Ok s' st' =>
      exists wa,
        constructed st' = [wa] /\
        wa_player_1 wa = "bob" /\ wa_player_2 wa = "alice" /\
        s' = tally stats0
               (5, 3, [Toy.think_time "alice"; Toy.think_time "alice"],
                [Toy.think_time "bob"; Toy.think_time "bob"])
  | _ => False
  end.
Proof.
  destruct (autoplay_body 10 0 stats0 (loop_entry Toy.proc))
    as [s' st'|e st'|] eqn:H.
  - destruct (swap_restores_logical_agents Toy.engine 10 0 stats0
                (loop_entry Toy.proc) s' st' H)
      as (wa & sc1 & sc2 & t1 & t2 & Hrun & Hc & H1 & H2 & Hs & _).
    vm_compute in Hrun. injection Hrun as <- <- <- <- _.
    exists wa. repeat split.
    + exact Hc.
    + exact H2.
    + exact H1.
    + exact Hs.
  - vm_compute in H. discriminate H.
  - vm_compute in H. discriminate H.
Defined.

(** ** The sequence of matches *)

Section Trace.

Context {E : Engine}.

Implicit Types st : Proc E.

Lemma autoplay_body_ok_static fuel i s st s' st' :
  autoplay_body fuel i s st = Ok s' st' ->
  board_options st <> [] /\
  args st' = args st /\
  board_options st' = board_options st /\
  np_random st' = (fun n => np_random st (S n)) /\
  constructed st' =
    constructed st ++
    [expected_call (args st) (board_options st) i (np_random st 0)].
Proof.
  rewrite autoplay_body_unfold. cbv zeta. intros H.
  destruct (board_options st) as [|b0 roster] eqn:Hopts; [discriminate|].
  rewrite <- Hopts in *.
  match type of H with context [run ?f ?sw ?b ?s1] =>
    pose proof (run_static f sw b s1) as Hst;
    destruct (run f sw b s1) as [r st1|e st1|]; try discriminate end.
  injection H as _ <-.
  destruct Hst as (Ha & Hb & _ & Hr & Hc & _). cbn in Ha, Hb, Hr, Hc.
  repeat split; try assumption. rewrite Hopts. discriminate.
Qed.


Lemma keeps_report player agent credit times :
  keeps static (@report E player agent credit times).
Proof.
  intros st. rewrite report_unfold.
  destruct (autoplay_runs (args st) =? 0); [apply static_refl|].
  destruct times; [apply static_refl|]. apply keeps_log_info.
Qed.


End Trace.

Section Draw.

Context {E : Engine}.

Implicit Types st : Proc E.






End Draw.



(** C8: with an empty roster and at least one run requested, [autoplay]
    raises the [ValueError] of [randint(0)].  The loop is iteration 0,
    entered with both credits zero, followed by the others; iteration 0
    fails in the draw, so no engine has been built, no step taken and no
    random draw consumed when the exception leaves [autoplay]. *)
Theorem autoplay_empty_roster (E : Engine) (fuel : nat) (st : Proc E) :
  board_options st = [] ->
  1 <= autoplay_runs (args st) ->
  exists st',
    autoplay fuel st = Raise (ValueError "high <= 0") st' /\
    autoplay_loop fuel (loop_entry st) =
      bind (autoplay_body fuel 0 stats0)
           (for_each (autoplay_body fuel)
              (seq 1 (Z.to_nat (autoplay_runs (args st)) - 1)))
           (loop_entry st) /\
    p1_win_count stats0 = 0%Q /\ p2_win_count stats0 = 0%Q /\
    randint (Z.of_nat (List.length (board_options (loop_entry st))))
            (loop_entry st)
      = Raise (ValueError "high <= 0") (loop_entry st) /\
    autoplay_body fuel 0 stats0 (loop_entry st)
      = Raise (ValueError "high <= 0") (loop_entry st) /\
    constructed st' = constructed st /\
    world st' = world st /\
    np_random st' = np_random st.
Proof.
  intros Hempty Hruns.
  destruct (loop_entry_fields st) as (Ha & Hbo & Hw & Hd & Hr & Hc & Hl).
  assert (Hloop : autoplay_loop fuel (loop_entry st) =
                  bind (autoplay_body fuel 0 stats0)
                       (for_each (autoplay_body fuel)
                          (seq 1 (Z.to_nat (autoplay_runs (args st)) - 1)))
                       (loop_entry st)).
  { unfold autoplay_loop. unfold bind at 1. unfold gets.
    rewrite loop_entry_runs.
    destruct (Z.to_nat (autoplay_runs (args st))) as [|n] eqn:Hn; [lia|].
    cbn [seq for_each]. rewrite Nat.sub_succ, Nat.sub_0_r. reflexivity. }
  assert (Hbody : autoplay_body fuel 0 stats0 (loop_entry st) =
                  Raise (ValueError "high <= 0") (loop_entry st)).
  { rewrite autoplay_body_unfold, Hbo, Hempty. reflexivity. }
  exists (with_log_disable (log_disable st) (loop_entry st)).
  split.
  { rewrite autoplay_unfold, Hloop. unfold bind. rewrite Hbody. reflexivity. }
  split; [exact Hloop|].
  split; [reflexivity|]. split; [reflexivity|].
  split; [rewrite Hbo, Hempty; reflexivity|].
  split; [exact Hbody|].
  cbn. auto.
Qed.

(** A roster directory that does not exist, four runs requested. *)
Lemma autoplay_empty_roster_witness :
  exists st',
    autoplay 10 Toy.proc_no_roster = Raise (ValueError "high <= 0") st' /\
    constructed st' = [] /\ world st' = None.
Proof.
  destruct (autoplay_empty_roster Toy.engine 10 Toy.proc_no_roster
              eq_refl ltac:(discriminate))
    as (st' & H & _ & _ & _ & _ & _ & Hc & Hw & _).
  exists st'. split; [exact H|]. split; [exact Hc | exact Hw].
Defined.

(** With zero runs requested there is no iteration at all: the loop is
    skipped and the first summary line divides by zero, whatever the
    roster. *)
Lemma autoplay_zero_runs (E : Engine) (fuel : nat) (st : Proc E) :
  autoplay_runs (args st) = 0 ->
  exists st', autoplay fuel st = Raise ZeroDivisionError st' /\
              constructed st' = constructed st.
Proof.
  intros H0. rewrite autoplay_unfold.
  unfold autoplay_loop, bind at 1, gets. rewrite loop_entry_runs, H0.
  cbn [Z.to_nat seq for_each ret]. unfold bind at 1.
  rewrite report_unfold.
  cbn [args with_log_disable]. rewrite loop_entry_runs, H0. cbn [Z.eqb].
  eexists. split; [reflexivity|].
  destruct (loop_entry_fields st) as (_ & _ & _ & _ & _ & Hc & _). exact Hc.
Qed.

(** ** Logging *)

Section Logging.

Context {E : Engine}.

Implicit Types st : Proc E.

Lemma exits_in_inv {A : Type} (r : result (Proc E) A) st' :
  exits_in r st' ->
  match r with
  | Ok _ st1 | Raise _ st1 => st1 = st'
  | OutOfFuel => False
  end.
Proof.
  intros [[x Hx]|[x Hx]]; subst r; reflexivity.
Qed.

Lemma logs_only_refl st : logs_only st st.
Proof.
  split; [reflexivity|]. exists []. rewrite app_nil_r. split; reflexivity.
Qed.

Lemma logs_only_trans st1 st2 st3 :
  logs_only st1 st2 -> logs_only st2 st3 -> logs_only st1 st3.
Proof.
  intros (Hd & x & Hx & Hfx) (Hd' & y & Hy & Hfy).
  split; [congruence|]. exists (x ++ y).
  rewrite Hy, Hx, app_assoc, forallb_app, Hfx, Hfy. split; reflexivity.
Qed.

Lemma log_logs_only lvl msg st :
  is_run_finished (lvl, msg) = false ->
  exists st', log lvl msg st = Ok tt st' /\ logs_only st st'.
Proof.
  intros Hm. unfold log. destruct (isEnabledFor st lvl).
  - eexists. split; [reflexivity|]. split; [reflexivity|].
    exists [(lvl, msg)]. cbn [log_out with_log_out forallb].
    rewrite Hm. split; reflexivity.
  - exists st. split; [reflexivity | apply logs_only_refl].
Qed.

Lemma keeps_report_logs player agent credit times :
  keeps logs_only (@report E player agent credit times).
Proof.
  intros st. rewrite report_unfold.
  destruct (autoplay_runs (args st) =? 0); [apply logs_only_refl|].
  destruct times as [|x xs]; [apply logs_only_refl|].
  match goal with |- context [log ?l ?m st] =>
    destruct (log_logs_only l m st eq_refl) as (st' & -> & H) end.
  exact H.
Qed.

(** The [with] block: nothing reaches the log, and the threshold is back
    to its prior value on both exits. *)
Lemma with_block_silent fuel st st' :
  exits_in (all_logging_disabled (autoplay_loop fuel) st) st' ->
  log_disable st' = log_disable st /\ log_out st' = log_out st.
Proof.
  unfold all_logging_disabled.
  pose proof (keeps_autoplay_loop fuel (with_log_disable CRITICAL st)) as Hk.
  destruct (autoplay_loop fuel _) as [s st1|e st1|];
    intros Hx; apply exits_in_inv in Hx; try contradiction; subst st';
    destruct Hk as (_ & _ & _ & Hl); cbn in Hl |- *;
    (split; [reflexivity | apply Hl; unfold INFO, CRITICAL; lia]).
Qed.

Lemma loop_entry_logs_only st :
  log_disable (with_log_disable (log_disable st) (loop_entry st))
    = log_disable st /\
  exists extra,
    log_out (loop_entry st) = log_out st ++ extra /\
    forallb (fun r => negb (is_run_finished r)) extra = true.
Proof.
  split; [reflexivity|].
  destruct (loop_entry_fields st) as (_ & _ & _ & _ & _ & _ & ->).
  destruct (display (args st) && isEnabledFor st WARNING).
  - eexists. split; reflexivity.
  - exists []. rewrite app_nil_r. split; reflexivity.
Qed.

(** Whatever way [autoplay] exits, the threshold is restored and no
    per-match line was written. *)
Lemma autoplay_exit_logs fuel st st' :
  exits_in (autoplay fuel st) st' -> logs_only st st'.
Proof.
  rewrite autoplay_unfold.
  pose proof (keeps_autoplay_loop fuel (loop_entry st)) as Hk.
  destruct (loop_entry_logs_only st) as (_ & w & Hw & Hfw).
  destruct (loop_entry_fields st) as (_ & _ & _ & Hd & _).
  assert (Hback : forall st1, settled (loop_entry st) st1 ->
                    logs_only st (with_log_disable (log_disable st) st1)).
  { intros st1 (_ & _ & _ & Hl). split; [reflexivity|].
    exists w. cbn [log_out with_log_disable].
    rewrite Hl, Hw by (rewrite Hd; unfold INFO, CRITICAL; lia).
    split; [reflexivity | exact Hfw]. }
  destruct (autoplay_loop fuel (loop_entry st)) as [s st1|e st1|].
  - specialize (Hback st1 Hk). unfold bind, ret.
    pose proof (keeps_report_logs 1 player_1 (p1_win_count s) (p1_times s)
                  (with_log_disable (log_disable st) st1)) as H1.
    destruct (report 1 _ _ _ _) as [[] st2|e st2|].
    + pose proof (keeps_report_logs 2 player_2 (p2_win_count s)
                    (p2_times s) st2) as H2.
      destruct (report 2 _ _ _ _) as [[] st3|e st3|];
        intros Hx; apply exits_in_inv in Hx; try contradiction; subst st';
        eauto using logs_only_trans.
    + intros Hx; apply exits_in_inv in Hx; subst st'.
      eauto using logs_only_trans.
    + intros Hx; apply exits_in_inv in Hx; contradiction.
  - intros Hx; apply exits_in_inv in Hx; subst st'. exact (Hback st1 Hk).
  - intros Hx; apply exits_in_inv in Hx; contradiction.
Qed.

End Logging.

(** ** Maxima and rounding *)



(** On the sample values the rational model of float rounding and of
    [np.round(x, 5)] gives what the processor's floats give. *)
Lemma np_round_matches_hardware :
  forallb Hardware.agree Hardware.samples = true.
Proof. vm_compute. reflexivity. Qed.

(** ** The summary lines *)

Section Summary.

Context {E : Engine}.

Implicit Types st : Proc E.

Lemma report_ok_enabled player agent credit times st st' :
  report player agent credit times st = Ok tt st' ->
  isEnabledFor st INFO = true ->
  exists x xs,
    times = x :: xs /\
    autoplay_runs (args st) <> 0 /\
    st' = with_log_out
            (log_out st ++
             [(INFO, MsgSummary player (agent (args st))
                       (binary64 (credit / inject_Z (autoplay_runs (args st))))
                       (np_round (max_from x xs) 5))]) st.
Proof.
  rewrite report_unfold. intros H Hen.
  destruct (Z.eqb_spec (autoplay_runs (args st)) 0); [discriminate|].
  destruct times as [|x xs]; [discriminate|].
  unfold log in H. rewrite Hen in H. injection H as <-.
  exists x, xs. auto.
Qed.

Lemma autoplay_ok_log fuel st s st' :
  autoplay fuel st = Ok s st' ->
  log_disable st < INFO ->
  exists x1 xs1 x2 xs2,
    p1_times s = x1 :: xs1 /\
    p2_times s = x2 :: xs2 /\
    log_out st' =
      log_out st ++ display_warning (args st) ++
      [(INFO, MsgSummary 1 (player_1 (args st))
                (binary64 (p1_win_count s / inject_Z (autoplay_runs (args st))))
                (np_round (max_from x1 xs1) 5));
       (INFO, MsgSummary 2 (player_2 (args st))
                (binary64 (p2_win_count s / inject_Z (autoplay_runs (args st))))
                (np_round (max_from x2 xs2) 5))].
Proof.
  intros H Hlvl. apply autoplay_ok_loop in H as (st1 & Hloop & Hrep).
  pose proof (keeps_autoplay_loop fuel (loop_entry st)) as Hk.
  rewrite Hloop in Hk. destruct Hk as (Ha & _ & _ & Hl).
  destruct (loop_entry_fields st) as (Ha0 & _ & _ & Hd & _ & _ & Hl0).
  rewrite Hd in Hl. specialize (Hl ltac:(unfold INFO, CRITICAL; lia)).
  rewrite Ha0 in Ha. rewrite Hl0 in Hl.
  assert (Hw : isEnabledFor st WARNING = true).
  { unfold isEnabledFor, WARNING, INFO in *.
    apply andb_true_iff. split; [apply negb_true_iff, Z.leb_gt | apply Z.leb_le];
      lia. }
  rewrite Hw, andb_true_r in Hl.
  unfold bind in Hrep.
  destruct (report 1 _ _ _ _) as [[] st2|e st2|] eqn:H1; try discriminate.
  apply report_ok_enabled in H1 as (x1 & xs1 & Ht1 & _ & ->);
    [|unfold isEnabledFor, INFO in *; cbn [log_disable with_log_disable];
      apply andb_true_iff; split;
      [apply negb_true_iff, Z.leb_gt | apply Z.leb_le]; lia].
  apply report_ok_enabled in Hrep as (x2 & xs2 & Ht2 & _ & ->);
    [|unfold isEnabledFor, INFO in *;
      cbn [log_disable with_log_disable with_log_out];
      apply andb_true_iff; split;
      [apply negb_true_iff, Z.leb_gt | apply Z.leb_le]; lia].
  exists x1, xs1, x2, xs2. split; [exact Ht1|]. split; [exact Ht2|].
  cbn [log_out with_log_out with_log_disable args]. rewrite Ha, Hl.
  unfold display_warning. cbn [set_display player_1 player_2 autoplay_runs].
  destruct (display (args st)); rewrite <- !app_assoc; reflexivity.
Qed.

End Summary.




(** C6: (1) the [with] block of [autoplay], from any state and on both of
    its exits (return, or exception raised by a match), leaves the log
    exactly as it found it and the threshold at its prior value; (2) on
    every exit of [autoplay] the prior threshold is in force again and
    none of the records written is a per-match line; (3) when [autoplay]
    returns and [INFO] records were enabled beforehand, the log has grown
    by the display warning, if any, and the two summary lines. *)
Theorem autoplay_logging (E : Engine) (fuel : nat) (st : Proc E) :
  (forall st',
     exits_in (all_logging_disabled (autoplay_loop fuel) st) st' ->
     log_disable st' = log_disable st /\ log_out st' = log_out st) /\
  (forall st',
     exits_in (autoplay fuel st) st' ->
     log_disable st' = log_disable st /\
     exists extra,
       log_out st' = log_out st ++ extra /\
       forallb (fun r => negb (is_run_finished r)) extra = true) /\
  (forall s st',
     autoplay fuel st = Ok s st' ->
     log_disable st < INFO ->
     exists pct1 m1 pct2 m2,
       log_out st' =
         log_out st ++ display_warning (args st) ++
         [(INFO, MsgSummary 1 (player_1 (args st)) pct1 m1);
          (INFO, MsgSummary 2 (player_2 (args st)) pct2 m2)]).
Proof.
  split; [|split].
  - intros st'. apply with_block_silent.
  - intros st' H. exact (autoplay_exit_logs fuel st st' H).
  - intros s st' H Hlvl.
    destruct (autoplay_ok_log fuel st s st' H Hlvl)
      as (x1 & xs1 & x2 & xs2 & _ & _ & Hlog).
    eexists _, _, _, _. exact Hlog.
Qed.

(** A tournament in which the first match raises, and one that
    completes. *)
Lemma autoplay_logging_witness :
  (exists e st',
     autoplay 10 Toy.proc_crash = Raise e st' /\
     log_disable st' = 0 /\
     exists extra,
       log_out st' = [] ++ extra /\
       forallb (fun r => negb (is_run_finished r)) extra = true) /\
  (exists s st',
     autoplay 10 Toy.proc = Ok s st' /\
     log_disable st' = 0 /\
     exists pct1 m1 pct2 m2,
       log_out st' =
         [(WARNING, MsgDisplayDisabled);
          (INFO, MsgSummary 1 "alice" pct1 m1);
          (INFO, MsgSummary 2 "bob" pct2 m2)]).
Proof.
  split.
  - destruct (autoplay 10 Toy.proc_crash) as [s st'|e st'|] eqn:H.
    + vm_compute in H. discriminate H.
    + exists e, st'. split; [reflexivity|].
      destruct (autoplay_logging Toy.engine 10 Toy.proc_crash) as (_ & H2 & _).
      apply H2. right. exists e. exact H.
    + vm_compute in H. discriminate H.
  - destruct (autoplay 10 Toy.proc) as [s st'|e st'|] eqn:H.
    + exists s, st'. split; [reflexivity|].
      destruct (autoplay_logging Toy.engine 10 Toy.proc) as (_ & H2 & H3).
      split.
      * apply H2. left. exists s. exact H.
      * exact (H3 s st' H ltac:(reflexivity)).
    + vm_compute in H. discriminate H.
    + vm_compute in H. discriminate H.
Defined.

(** ** The configuration *)

Section Configuration.

Context {E : Engine}.

Implicit Types st : Proc E.

Lemma set_display_off (a : Args) :
  display a = false -> set_display false a = a.
Proof. destruct a; cbn. intros ->. reflexivity. Qed.

Lemma reset_exit_args swap_players board_fpath st st' :
  exits_in (reset swap_players board_fpath st) st' -> args st' = args st.
Proof.
  rewrite reset_unfold. cbv zeta.
  destruct (World_init E _); intros H; apply exits_in_inv in H; subst st';
    reflexivity.
Qed.

Lemma run_exit_args fuel swap_players board_fpath st st' :
  exits_in (run fuel swap_players board_fpath st) st' -> args st' = args st.
Proof.
  pose proof (run_static fuel swap_players board_fpath st) as Hs.
  destruct (run fuel swap_players board_fpath st);
    intros H; apply exits_in_inv in H; try contradiction; subst st';
    destruct Hs as (Ha & _); exact Ha.
Qed.

Lemma autoplay_exit_args fuel st st' :
  exits_in (autoplay fuel st) st' -> args st' = set_display false (args st).
Proof.
  rewrite autoplay_unfold.
  pose proof (keeps_autoplay_loop fuel (loop_entry st)) as Hk.
  destruct (loop_entry_fields st) as (Ha0 & _).
  destruct (autoplay_loop fuel (loop_entry st)) as [s st1|e st1|].
  - destruct Hk as (Ha & _). rewrite Ha0 in Ha.
    match goal with |- exits_in (?m ?s0) _ -> _ =>
      assert (Hm : keeps static m)
        by (apply keeps_bind; [apply keeps_report|]; intros;
            apply keeps_bind; [apply keeps_report|]; intros; apply keeps_ret);
      specialize (Hm s0); destruct (m s0) end;
      intros H; apply exits_in_inv in H; try contradiction; subst st';
      destruct Hm as (Hm & _); rewrite Hm; exact Ha.
  - intros H; apply exits_in_inv in H; subst st'.
    destruct Hk as (Ha & _). rewrite Ha0 in Ha. exact Ha.
  - intros H; apply exits_in_inv in H; contradiction.
Qed.

End Configuration.

(** C10, as the code has it: roster discovery, [reset] and [run] leave
    every field of the configuration as they found it, on return and on
    exception.  [autoplay] leaves every field but [display] unchanged and
    sets [display] to [False]; the configuration is unchanged by it exactly
    when [display] was already off. *)
Theorem configuration_frame (E : Engine) :
  (forall fs g a, args (Simulator_init E fs g a) = a) /\
  (forall swap_players board_fpath (st st' : Proc E),
     exits_in (reset swap_players board_fpath st) st' ->
     args st' = args st) /\
  (forall fuel swap_players board_fpath (st st' : Proc E),
     exits_in (run fuel swap_players board_fpath st) st' ->
     args st' = args st) /\
  (forall fuel (st st' : Proc E),
     exits_in (autoplay fuel st) st' ->
     args st' = set_display false (args st) /\
     display (args st') = false /\
     (display (args st) = false <-> args st' = args st)).
Proof.
  split; [reflexivity|].
  split; [intros *; apply reset_exit_args|].
  split; [intros *; apply run_exit_args|].
  intros fuel st st' H. apply autoplay_exit_args in H.
  split; [exact H|]. split; [rewrite H; reflexivity|].
  split.
  - intros Hd. rewrite H. apply set_display_off. exact Hd.
  - intros Heq. rewrite <- Heq, H. reflexivity.
Qed.

(** [alice] against [bob], started with [display] on. *)
Lemma configuration_frame_witness :
  exists s st',
    autoplay 10 Toy.proc = Ok s st' /\
    args st' = set_display false (args Toy.proc).
Proof.
  destruct (autoplay 10 Toy.proc) as [s st'|e st'|] eqn:H.
  - exists s, st'. split; [reflexivity|].
    destruct (configuration_frame Toy.engine) as (_ & _ & _ & H4).
    apply (H4 10%nat Toy.proc st'). left. exists s. exact H.
  - vm_compute in H. discriminate H.
  - vm_compute in H. discriminate H.
Defined.

(** The claim C10 as worded fails: [autoplay] started with [display] on
    returns with [display] off. *)
Lemma autoplay_changes_display :
  display (args Toy.proc) = true /\
  match autoplay 10 Toy.proc with
  | Ok _ st' => display (args st') = false /\ args st' <> args Toy.proc
  | _ => False
  end.
Proof.
  vm_compute. split; [reflexivity|]. split; [reflexivity | discriminate].
Qed.

(** A match of [alice] (seat 1) against [bob] on a given board: the fourth
    step is the first terminal one. *)
Lemma run_returns_terminal_result_witness :
  exists st',
    run 3 false (Some "boards/a.csv") Toy.proc =
      Ok (5, 3, [Toy.think_time "alice"; Toy.think_time "alice"],
          [Toy.think_time "bob"; Toy.think_time "bob"]) st' /\
    world st' = Some (Toy.finished "alice" "bob").
Proof.
  assert (Hend : ends_after Toy.engine
                   {| Toy.seat_1 := "alice"; Toy.seat_2 := "bob";
                      Toy.turn := 0; Toy.time_1 := []; Toy.time_2 := [] |}
                   4 (Toy.finished "alice" "bob") 5 3).
  { eapply ends_later; [reflexivity|].
    eapply ends_later; [reflexivity|].
    eapply ends_later; [reflexivity|].
    apply ends_now. reflexivity. }
  destruct (run_returns_terminal_result Toy.engine 3 false
              (Some "boards/a.csv") Toy.proc _ _ 4 5 3 eq_refl Hend
              ltac:(repeat constructor))
    as (st' & Hrun & Hw & _).
  exists st'. split; [exact Hrun | exact Hw].
Defined.

(** * Further properties of the code *)

(** ** Single matches *)

Section Matches.

Context {E : Engine}.

Implicit Types st : Proc E.

Lemma engine_only_refl st : engine_only st st.
Proof. unfold engine_only. intuition. Qed.

Lemma engine_only_trans st1 st2 st3 :
  engine_only st1 st2 -> engine_only st2 st3 -> engine_only st1 st3.
Proof.
  unfold engine_only.
  intros (? & ? & ? & ? & ? & ?) (? & ? & ? & ? & ? & ?).
  repeat split; congruence.
Qed.

Lemma engine_only_with_world st w : engine_only st (with_world w st).
Proof. unfold engine_only; cbn. intuition. Qed.

Lemma keeps_engine_only_world_step : keeps engine_only (@world_step E).
Proof.
  intros st. unfold world_step.
  destruct (world st) as [w|]; [|apply engine_only_refl].
  destruct (World_step E w) as [w' [e|x]]; apply engine_only_with_world.
Qed.

Lemma keeps_engine_only_steps fuel r :
  keeps engine_only (@step_until_end E fuel r).
Proof.
  revert r. induction fuel as [|fuel IH]; intros [[is_end p0] p1] st;
    cbn [step_until_end]; destruct is_end;
    try apply engine_only_refl; [exact I|].
  unfold bind. pose proof (keeps_engine_only_world_step st) as H1.
  destruct (world_step st) as [r st1|e st1|]; auto.
  specialize (IH r st1).
  destruct (step_until_end fuel r st1); eauto using engine_only_trans.
Qed.

(** The step loop of [run], from the first call of [step()] on. *)
Lemma keeps_engine_only_loop fuel :
  keeps engine_only (bind (@world_step E) (step_until_end fuel)).
Proof.
  intros st. unfold bind.
  pose proof (keeps_engine_only_world_step st) as H1.
  destruct (world_step st) as [r st1|e st1|]; auto.
  pose proof (keeps_engine_only_steps fuel r st1) as H2.
  destruct (step_until_end fuel r st1); eauto using engine_only_trans.
Qed.

(** [run] in terms of its three phases: [reset], the step loop, and the
    log line with the return value. *)
Lemma run_phases fuel swap_players board_fpath st :
  run fuel swap_players board_fpath st =
  match World_init E (reset_call st swap_players board_fpath) with
  | inl e =>
      Raise e (with_constructed
                 (constructed st ++ [reset_call st swap_players board_fpath])
                 st)
  | inr w0 =>
      match bind world_step (step_until_end fuel)
                 (after_reset st swap_players board_fpath w0) with
      | Ok scores st2 =>
          let st3 :=
            if isEnabledFor st2 INFO
            then with_log_out
                   (log_out st2 ++
                    [(INFO, MsgRunFinished (player_1 (args st2)) (fst scores)
                                           (player_2 (args st2)) (snd scores))])
                   st2
            else st2 in
          match world st3 with
          | None => Raise AttributeError st3
          | Some w =>
              Ok (fst scores, snd scores, World_p0_time E w,
                  World_p1_time E w) st3
          end
      | Raise e st2 => Raise e st2
      | OutOfFuel => OutOfFuel
      end
  end.
Proof.
  rewrite run_unfold, reset_unfold. cbv zeta.
  destruct (World_init E _) as [e|w0]; [reflexivity|].
  cbv beta iota. rewrite bind_assoc. unfold after_reset.
  unfold bind at 1.
  destruct (bind world_step (step_until_end fuel) _) as [sc st2|e st2|];
    try reflexivity.
  unfold bind, gets, log.
  destruct (isEnabledFor st2 INFO); cbn; destruct (world st2); reflexivity.
Qed.

Lemma world_step_raise st w w' e :
  world st = Some w -> World_step E w = (w', inl e) ->
  world_step st = Raise e (with_world w' st).
Proof. intros Hw Hs. unfold world_step. rewrite Hw, Hs. reflexivity. Qed.

Lemma fails_after_pos w n w' e : fails_after E w n w' e -> (1 <= n)%nat.
Proof. destruct 1; lia. Qed.

Lemma steps_reach_failure w n w' e :
  fails_after E w n w' e ->
  forall fuel st, world st = Some w -> (n <= S fuel)%nat ->
  bind world_step (step_until_end fuel) st = Raise e (with_world w' st).
Proof.
  induction 1 as [w w' e Hstep | w w1 a b n w' e Hstep Hrest IH];
    intros fuel st Hw Hfuel; unfold bind at 1.
  - rewrite (world_step_raise _ _ _ _ Hw Hstep). reflexivity.
  - rewrite (world_step_ok _ _ _ _ Hw Hstep).
    pose proof (fails_after_pos _ _ _ _ Hrest).
    destruct fuel as [|fuel]; [lia|].
    exact (IH fuel (with_world w1 st) eq_refl ltac:(lia)).
Qed.

Lemma steps_never_end (I : World E -> Prop) :
  (forall w, I w ->
     exists w' a b, World_step E w = (w', inr (false, a, b)) /\ I w') ->
  forall fuel st w, world st = Some w -> I w ->
  bind world_step (step_until_end fuel) st = OutOfFuel.
Proof.
  intros Hinv. induction fuel as [|fuel IH]; intros st w Hw HI;
    destruct (Hinv w HI) as (w' & a & b & Hstep & HI');
    unfold bind at 1; rewrite (world_step_ok _ _ _ _ Hw Hstep).
  - reflexivity.
  - exact (IH (with_world w' st) w' eq_refl HI').
Qed.

Lemma isEnabledFor_same st st' level :
  log_disable st' = log_disable st ->
  isEnabledFor st' level = isEnabledFor st level.
Proof. unfold isEnabledFor. intros ->. reflexivity. Qed.

End Matches.

(** X1: A failure of the engine leaves [run] as the exception it raised.
    When the constructor raises, no step is taken and [self.world] still
    holds the previous engine.  When the [n]-th step raises after [n-1]
    non-terminal ones, [self.world] holds the engine as the failing step
    left it. *)
Theorem run_propagates_engine_failure (E : Engine) (fuel : nat)
  (swap_players : bool) (board_fpath : option string) (st : Proc E) :
  (forall e,
     World_init E (reset_call st swap_players board_fpath) = inl e ->
     exists st',
       run fuel swap_players board_fpath st = Raise e st' /\
       world st' = world st) /\
  (forall w0 n w' e,
     World_init E (reset_call st swap_players board_fpath) = inr w0 ->
     fails_after E w0 n w' e ->
     (n <= S fuel)%nat ->
     exists st',
       run fuel swap_players board_fpath st = Raise e st' /\
       world st' = Some w').
Proof.
  split.
  - intros e Hinit. rewrite run_phases, Hinit.
    eexists. split; reflexivity.
  - intros w0 n w' e Hinit Hfail Hfuel. rewrite run_phases, Hinit.
    rewrite (steps_reach_failure _ _ _ _ Hfail fuel
               (after_reset st swap_players board_fpath w0) eq_refl Hfuel).
    eexists. split; reflexivity.
Qed.

(** A match without a board (the constructor of the small engine raises),
    and a match in which [crash], in seat 2, raises at the second step. *)
Lemma run_propagates_engine_failure_witness :
  (exists st',
     run 10 false None Toy.proc = Raise (EngineError "no board") st' /\
     world st' = None) /\
  (exists st',
     run 10 false (Some "boards/a.csv") Toy.proc_crash
       = Raise (EngineError "agent crashed") st' /\
     world st' =
       Some {| Toy.seat_1 := "alice"; Toy.seat_2 := "crash";
               Toy.turn := 1;
               Toy.time_1 := [Toy.think_time "alice"];
               Toy.time_2 := [] |}).
Proof.
  destruct (run_propagates_engine_failure Toy.engine 10 false None Toy.proc)
    as [H1 _].
  destruct (run_propagates_engine_failure Toy.engine 10 false
              (Some "boards/a.csv") Toy.proc_crash) as [_ H2].
  split.
  - exact (H1 (EngineError "no board") eq_refl).
  - destruct (H2 {| Toy.seat_1 := "alice"; Toy.seat_2 := "crash";
                    Toy.turn := 0; Toy.time_1 := []; Toy.time_2 := [] |}
                 2%nat
                 {| Toy.seat_1 := "alice"; Toy.seat_2 := "crash";
                    Toy.turn := 1;
                    Toy.time_1 := [Toy.think_time "alice"];
                    Toy.time_2 := [] |}
                 (EngineError "agent crashed") eq_refl)
      as (st' & Hrun & Hw).
    + eapply fails_later; [reflexivity|]. apply fails_now. reflexivity.
    + repeat constructor.
    + exists st'. split; [exact Hrun | exact Hw].
Defined.

(** X2: [run] imposes no bound on the match: on an engine that can be built
    and whose steps never raise nor report a terminal state, [run] neither
    returns nor raises, whatever the step budget. *)
Theorem run_never_returns (E : Engine) (swap_players : bool)
  (board_fpath : option string) (st : Proc E) (w0 : World E) :
  World_init E (reset_call st swap_players board_fpath) = inr w0 ->
  never_ends E w0 ->
  forall fuel, run fuel swap_players board_fpath st = OutOfFuel.
Proof.
  intros Hinit (I & HI0 & Hinv) fuel. rewrite run_phases, Hinit.
  rewrite (steps_never_end I Hinv fuel
             (after_reset st swap_players board_fpath w0) w0 eq_refl HI0).
  reflexivity.
Qed.

(** The engine whose every step reports a non-terminal state. *)
Lemma run_never_returns_witness :
  run 1000 false None
      (Simulator_init Stuck.engine Toy.fs Toy.rng
         (Toy.config "alice" "bob" None 1)) = OutOfFuel.
Proof.
  apply (run_never_returns Stuck.engine false None _ tt eq_refl).
  exists (fun _ => True). split; [exact I|].
  intros w _. exists w, 0, 0. split; [reflexivity | exact I].
Defined.

(** X3: When [run] returns with [INFO] records enabled, the last record of
    the log is its line for the match.  The line pairs the configured
    [player_1] with the seat-1 score and [player_2] with the seat-2 score
    whether or not the seats were exchanged, although with [swap_players]
    the engine was built with [player_2] in seat 1. *)
Theorem run_log_line (E : Engine) (fuel : nat) (swap_players : bool)
  (board_fpath : option string) (st : Proc E) (s0 s1 : Z) (t0 t1 : list Q)
  (st' : Proc E) :
  run fuel swap_players board_fpath st = Ok (s0, s1, t0, t1) st' ->
  (isEnabledFor st' INFO = true ->
   exists earlier,
     log_out st' =
       earlier ++
       [(INFO, MsgRunFinished (player_1 (args st)) s0
                              (player_2 (args st)) s1)]) /\
  exists wa,
    constructed st' = constructed st ++ [wa] /\
    wa_player_1 wa =
      (if swap_players then player_2 (args st) else player_1 (args st)) /\
    wa_player_2 wa =
      (if swap_players then player_1 (args st) else player_2 (args st)).
Proof.
  rewrite run_phases.
  destruct (World_init E _) as [e|w0]; [discriminate|].
  pose proof (keeps_engine_only_loop fuel
                (after_reset st swap_players board_fpath w0)) as Hk.
  destruct (bind world_step (step_until_end fuel) _) as [sc st2|e st2|];
    try discriminate.
  destruct Hk as (Ha & _ & Hd & Hl & _ & Hc). cbn in Ha, Hd, Hl, Hc.
  cbv zeta.
  destruct (isEnabledFor st2 INFO) eqn:Hen;
    [destruct (world (with_log_out _ st2)) | destruct (world st2)];
    try discriminate; intros H; injection H as <- <- _ _ <-.
  - split.
    + intros _. exists (log_out st2).
      cbn [log_out with_log_out]. rewrite Ha. reflexivity.
    + cbn [constructed with_log_out]. rewrite Hc.
      eexists. split; [reflexivity|].
      destruct swap_players; split; reflexivity.
  - split.
    + intros Hen'. congruence.
    + rewrite Hc. eexists. split; [reflexivity|].
      destruct swap_players; split; reflexivity.
Qed.

(** A swapped match of [alice] against [bob]: [bob] scores 3 in seat 1 and
    the line credits [alice] with it. *)
Lemma run_log_line_witness :
  exists t0 t1 st',
    run 10 true (Some "boards/a.csv") Toy.proc = Ok (3, 5, t0, t1) st' /\
    (exists earlier,
       log_out st' = earlier ++ [(INFO, MsgRunFinished "alice" 3 "bob" 5)]) /\
    exists wa, constructed st' = [wa] /\ wa_player_1 wa = "bob".
Proof.
  destruct (run 10 true (Some "boards/a.csv") Toy.proc)
    as [[[[s0 s1] t0] t1] st'|e st'|] eqn:H.
  - pose proof H as H0. vm_compute in H0. injection H0 as <- <- _ _ Hst.
    destruct (run_log_line Toy.engine 10 true (Some "boards/a.csv")
                Toy.proc 3 5 t0 t1 st' H)
      as (Hlog & wa & Hc & Hp1 & _).
    exists t0, t1, st'. split; [reflexivity|]. split.
    + apply Hlog. rewrite <- Hst. reflexivity.
    + exists wa. split; [exact Hc | exact Hp1].
  - vm_compute in H. discriminate H.
  - vm_compute in H. discriminate H.
Defined.


(** ** Tournaments that fail *)

Section Exits.

Context {E : Engine}.

Implicit Types st : Proc E.

Lemma autoplay_body_raise_static fuel i s st e st' :
  autoplay_body fuel i s st = Raise e st' ->
  (board_options st = [] /\ st' = st /\ e = ValueError "high <= 0") \/
  (board_options st <> [] /\
   args st' = args st /\
   board_options st' = board_options st /\
   np_random st' = (fun n => np_random st (S n)) /\
   constructed st' =
     constructed st ++
     [expected_call (args st) (board_options st) i (np_random st 0)]).
Proof.
  rewrite autoplay_body_unfold. cbv zeta. intros H.
  destruct (board_options st) as [|b0 roster] eqn:Hopts.
  - left. injection H as <- <-. auto.
  - right. rewrite <- Hopts in *.
    match type of H with context [run ?f ?sw ?b ?s1] =>
      pose proof (run_static f sw b s1) as Hst;
      destruct (run f sw b s1) as [r st1|e1 st1|]; try discriminate end.
    injection H as _ <-.
    destruct Hst as (Ha & Hb & _ & Hr & Hc & _). cbn in Ha, Hb, Hr, Hc.
    repeat split; try assumption. rewrite Hopts. discriminate.
Qed.

Lemma for_each_exit_trace fuel n :
  forall start s st st',
    exits_in (for_each (@autoplay_body E fuel) (seq start n) s st) st' ->
    exists k,
      (k <= n)%nat /\
      args st' = args st /\
      board_options st' = board_options st /\
      np_random st' = (fun j => np_random st (k + j)%nat) /\
      constructed st' =
        constructed st ++
        map (fun j => expected_call (args st) (board_options st)
                        (start + j) (np_random st j))
            (seq 0 k).
Proof.
  induction n as [|n IH]; intros start s st st' H; cbn [seq for_each] in H.
  - apply exits_in_inv in H. cbn in H. subst st'. exists 0%nat.
    cbn [seq map]. rewrite app_nil_r. auto.
  - unfold bind in H.
    destruct (autoplay_body fuel start s st) as [s1 st1|e st1|] eqn:Hb.
    + apply autoplay_body_ok_static in Hb as (_ & Ha & Ho & Hr & Hc).
      apply IH in H as (k & Hk & Ha' & Ho' & Hr' & Hc').
      exists (S k). rewrite Ha, Ho, Hr in *.
      split; [lia|]. repeat split; [congruence | congruence | exact Hr' |].
      rewrite Hc', Hc, <- app_assoc. f_equal.
      cbn [seq map app]. rewrite Nat.add_0_r. f_equal.
      rewrite <- seq_shift, map_map. apply map_ext.
      intros j. rewrite Nat.add_succ_r. reflexivity.
    + apply exits_in_inv in H. subst st1.
      apply autoplay_body_raise_static in Hb
        as [(_ & -> & _)|(_ & Ha & Ho & Hr & Hc)].
      * exists 0%nat. cbn [seq map]. rewrite app_nil_r.
        split; [lia|]. auto.
      * exists 1%nat. split; [lia|]. repeat split; try assumption.
        rewrite Hc. cbn [seq map]. rewrite Nat.add_0_r. reflexivity.
    + apply exits_in_inv in H. contradiction.
Qed.

(** The two summary lines touch nothing but the log, however they end. *)
Lemma keeps_reports (s : Stats) :
  keeps static
    (bind (report 1 player_1 (p1_win_count s) (p1_times s)) (fun _ =>
       bind (report 2 player_2 (p2_win_count s) (p2_times s)) (fun _ =>
         @ret E Stats s))).
Proof.
  apply keeps_bind; [apply keeps_report|]. intros _.
  apply keeps_bind; [apply keeps_report|]. intros _. apply keeps_ret.
Qed.

(** Every exit of [autoplay] is an exit of the loop followed by steps that
    touch nothing but the log and the threshold. *)
Lemma autoplay_exit_loop fuel st st' :
  exits_in (autoplay fuel st) st' ->
  exists st1,
    exits_in (autoplay_loop fuel (loop_entry st)) st1 /\
    static (with_log_disable (log_disable st) st1) st' /\
    (forall s, autoplay fuel st = Ok s st' ->
               autoplay_loop fuel (loop_entry st) = Ok s st1).
Proof.
  rewrite autoplay_unfold.
  destruct (autoplay_loop fuel (loop_entry st)) as [s st1|e st1|].
  - pose proof (keeps_reports s (with_log_disable (log_disable st) st1))
      as Hk.
    intros H. exists st1. split; [left; exists s; reflexivity|].
    destruct (bind _ _ _) as [s2 st2|e st2|] eqn:Hb;
      apply exits_in_inv in H; try contradiction; subst st'.
    + split; [exact Hk|]. intros s0 H0. injection H0 as <-.
      unfold bind, ret in Hb.
      destruct (report 1 _ _ _ _) as [[] st3|e st3|]; try discriminate.
      destruct (report 2 _ _ _ _) as [[] st4|e st4|]; try discriminate.
      injection Hb as <- _. reflexivity.
    + split; [exact Hk|]. intros s0 H0. discriminate H0.
  - intros H. apply exits_in_inv in H. subst st'. exists st1.
    split; [right; exists e; reflexivity|].
    split; [apply static_refl|]. intros s H0. discriminate H0.
  - intros H. apply exits_in_inv in H. contradiction.
Qed.

End Exits.

(** X5: However [autoplay] ends, by returning or by an exception of a
    match or of a summary line, it has built [k] engines for some [k] up to
    the number of runs, in index order: the [i]-th of them has its seats
    exchanged iff [i mod 2 = 0], plays a board of the roster and was built
    with its display off.  The roster is unchanged. *)
Theorem autoplay_exit_trace (E : Engine) (fuel : nat) (st st' : Proc E) :
  exits_in (autoplay fuel st) st' ->
  exists k,
    (k <= Z.to_nat (autoplay_runs (args st)))%nat /\
    List.length (constructed st') = (List.length (constructed st) + k)%nat /\
    (forall i, (i < k)%nat ->
       exists wa b,
         nth_error (constructed st') (List.length (constructed st) + i)
           = Some wa /\
         wa = engine_call (set_display false (args st))
                (Z.of_nat i mod 2 =? 0) (Some b) /\
         In b (board_options st) /\
         wa_display_ui wa = false) /\
    board_options st' = board_options st.
Proof.
  intros H. apply autoplay_exit_loop in H as (st1 & Hloop & Hst & _).
  unfold autoplay_loop, bind, gets in Hloop.
  rewrite loop_entry_runs in Hloop.
  destruct (loop_entry_fields st) as (Ha0 & Hbo & _ & _ & Hr0 & Hc0 & _).
  assert (Hne : forall st2,
             exits_in (for_each (autoplay_body fuel)
                         (seq 0 (Z.to_nat (autoplay_runs (args st))))
                         stats0 (loop_entry st)) st2 ->
             constructed st2 <> constructed st -> board_options st <> []).
  { intros st2 Hex Hgrow Hempty. apply Hgrow.
    destruct (Z.to_nat (autoplay_runs (args st))) as [|n].
    - apply exits_in_inv in Hex. cbn in Hex. subst st2. exact Hc0.
    - cbn [seq for_each] in Hex. unfold bind in Hex.
      rewrite autoplay_body_unfold, Hbo, Hempty in Hex.
      cbv beta iota zeta in Hex.
      apply exits_in_inv in Hex. subst st2. exact Hc0. }
  specialize (Hne st1 Hloop).
  apply for_each_exit_trace in Hloop as (k & Hk & _ & Ho & _ & Hc).
  rewrite Ha0, Hbo, Hr0, Hc0 in Hc. rewrite Hbo in Ho.
  destruct Hst as (_ & Hb' & _ & _ & Hc' & _). cbn in Hb', Hc'.
  rewrite <- Hc' in Hc.
  exists k. split; [exact Hk|].
  split; [rewrite Hc, length_app, length_map, length_seq; reflexivity|].
  split; [|congruence].
  intros i Hi.
  exists (scheduled_call st i), (drawn_board (board_options st) (np_random st i)).
  split.
  - rewrite Hc, nth_error_app2 by lia.
    replace (List.length (constructed st) + i
             - List.length (constructed st))%nat with i by lia.
    rewrite nth_error_map, nth_error_seq.
    replace (i <? k)%nat with true by (symmetry; apply Nat.ltb_lt; exact Hi).
    reflexivity.
  - split; [reflexivity|]. split; [|reflexivity].
    assert (Hroster : board_options st <> []).
    { apply Hne. rewrite <- Hc', Hc. intros Heq.
      apply (f_equal (@List.length _)) in Heq.
      rewrite length_app, length_map, length_seq in Heq. lia. }
    unfold drawn_board. apply nth_In.
    assert (0 < Z.of_nat (List.length (board_options st)))
      by (destruct (board_options st); [congruence | cbn [List.length]; lia]).
    pose proof (Z.mod_pos_bound (np_random st i)
                  (Z.of_nat (List.length (board_options st))) ltac:(lia)).
    lia.
Qed.

(** A tournament whose first match raises: one engine built. *)
Lemma autoplay_exit_trace_witness :
  exists e st' k,
    autoplay 10 Toy.proc_crash = Raise e st' /\
    (k <= 4)%nat /\
    List.length (constructed st') = k /\
    board_options st' = ["boards/a.csv"; "boards/b.board"].
Proof.
  destruct (autoplay 10 Toy.proc_crash) as [s st'|e st'|] eqn:H.
  - vm_compute in H. discriminate H.
  - destruct (autoplay_exit_trace Toy.engine 10 Toy.proc_crash st')
      as (k & Hk & Hc & _ & Hb).
    + right. exists e. exact H.
    + exists e, st', k. split; [reflexivity|]. split; [exact Hk|].
      split; [exact Hc | exact Hb].
  - vm_compute in H. discriminate H.
Defined.

(** ** What it takes for a tournament to return *)

Section Returns.

Context {E : Engine}.

Implicit Types st : Proc E.

Lemma report_ok_inv player agent credit times st st' :
  report player agent credit times st = Ok tt st' ->
  autoplay_runs (args st) <> 0 /\ times <> [] /\ args st' = args st.
Proof.
  rewrite report_unfold.
  destruct (Z.eqb_spec (autoplay_runs (args st)) 0); [discriminate|].
  destruct times as [|x xs]; [discriminate|].
  unfold log. destruct (isEnabledFor st INFO); intros H;
    injection H as <-; repeat split; auto; discriminate.
Qed.

Lemma autoplay_ok_requirements fuel st s st' :
  autoplay fuel st = Ok s st' ->
  1 <= autoplay_runs (args st) /\
  board_options st <> [] /\
  p1_times s <> [] /\
  p2_times s <> [].
Proof.
  intros H. apply autoplay_ok_loop in H as (st1 & Hloop & Hrep).
  unfold bind in Hrep.
  destruct (report 1 _ _ _ _) as [[] st2|e st2|] eqn:H1; try discriminate.
  apply report_ok_inv in H1 as (_ & Ht1 & _).
  apply report_ok_inv in Hrep as (_ & Ht2 & _).
  unfold autoplay_loop, bind, gets in Hloop.
  rewrite loop_entry_runs in Hloop.
  destruct (Z.to_nat (autoplay_runs (args st))) as [|n] eqn:Hn.
  - cbn [seq for_each ret] in Hloop. injection Hloop as <- _.
    cbn in Ht1. congruence.
  - split; [lia|]. split; [|split; assumption].
    cbn [seq for_each] in Hloop. unfold bind in Hloop.
    destruct (autoplay_body _ _ _ _) as [s1 st2'|e st2'|] eqn:Hb;
      try discriminate.
    apply autoplay_body_ok_static in Hb as (Hne & _).
    destruct (loop_entry_fields st) as (_ & Hbo & _). rewrite Hbo in Hne.
    exact Hne.
Qed.



End Returns.

(** X6: [autoplay] returns only if at least one run was requested, the roster
    is not empty and each agent has at least one timed turn on record. *)
Theorem autoplay_returns_only_if (E : Engine) (fuel : nat) (st : Proc E)
  (s : Stats) (st' : Proc E) :
  autoplay fuel st = Ok s st' ->
  1 <= autoplay_runs (args st) /\
  board_options st <> [] /\
  p1_times s <> [] /\
  p2_times s <> [].
Proof. apply autoplay_ok_requirements. Qed.

(** Four runs of [alice] against [bob] over two boards. *)
Lemma autoplay_returns_only_if_witness :
  match autoplay 10 Toy.proc with
  | Ok s _ => p1_times s <> [] /\ p2_times s <> []
  | _ => False
  end.
Proof.
  destruct (autoplay 10 Toy.proc) as [s st'|e st'|] eqn:H.
  - destruct (autoplay_returns_only_if Toy.engine 10 Toy.proc s st' H)
      as (_ & _ & H1 & H2).
    split; [exact H1 | exact H2].
  - vm_compute in H. discriminate H.
  - vm_compute in H. discriminate H.
Defined.



(** ** Tournaments that cannot start *)

Section NoStart.

Context {E : Engine}.

Implicit Types st : Proc E.

(** The state in which [autoplay] raises when no match was started. *)
Lemma autoplay_no_runs fuel st :
  autoplay_runs (args st) <= 0 ->
  autoplay fuel st =
  Raise (if autoplay_runs (args st) =? 0 then ZeroDivisionError
         else ValueError "zero-size array to reduction operation maximum which has no identity")
        (with_log_disable (log_disable st) (loop_entry st)).
Proof.
  intros Hruns. rewrite autoplay_unfold.
  unfold autoplay_loop, bind at 1, gets. rewrite loop_entry_runs.
  replace (Z.to_nat (autoplay_runs (args st))) with 0%nat by lia.
  cbn [seq for_each ret]. unfold bind at 1. rewrite report_unfold.
  cbn [args with_log_disable]. rewrite loop_entry_runs.
  destruct (autoplay_runs (args st) =? 0); reflexivity.
Qed.

Lemma autoplay_no_roster fuel st :
  board_options st = [] ->
  1 <= autoplay_runs (args st) ->
  autoplay fuel st =
  Raise (ValueError "high <= 0")
        (with_log_disable (log_disable st) (loop_entry st)).
Proof.
  intros Hempty Hruns. rewrite autoplay_unfold.
  unfold autoplay_loop, bind at 1, gets. rewrite loop_entry_runs.
  destruct (Z.to_nat (autoplay_runs (args st))) as [|n] eqn:Hn; [lia|].
  cbn [seq for_each]. unfold bind at 1.
  rewrite autoplay_body_unfold.
  destruct (loop_entry_fields st) as (_ & -> & _). rewrite Hempty.
  reflexivity.
Qed.

Lemma unstarted_fields st :
  constructed (with_log_disable (log_disable st) (loop_entry st))
    = constructed st /\
  np_random (with_log_disable (log_disable st) (loop_entry st))
    = np_random st /\
  world (with_log_disable (log_disable st) (loop_entry st)) = world st /\
  log_out (with_log_disable (log_disable st) (loop_entry st))
    = log_out st ++
      (if display (args st) && isEnabledFor st WARNING
       then [(WARNING, MsgDisplayDisabled)] else []).
Proof.
  destruct (loop_entry_fields st) as (_ & _ & Hw & _ & Hr & Hc & Hl).
  cbn [constructed np_random world log_out with_log_disable].
  repeat split; try assumption. rewrite Hl.
  destruct (display (args st) && isEnabledFor st WARNING);
    [reflexivity | rewrite app_nil_r; reflexivity].
Qed.

End NoStart.

(** X8: With zero or a negative number of runs the loop body never executes
    and [autoplay] fails in its first summary line: by a division by zero
    for zero runs, by the maximum of an empty sequence for a negative
    number.  No engine is built, no random number drawn, and no summary
    line is written. *)
Theorem autoplay_without_runs (E : Engine) (fuel : nat) (st : Proc E) :
  autoplay_runs (args st) <= 0 ->
  exists e st',
    autoplay fuel st = Raise e st' /\
    (autoplay_runs (args st) = 0 -> e = ZeroDivisionError) /\
    (autoplay_runs (args st) < 0 ->
     e = ValueError "zero-size array to reduction operation maximum which has no identity") /\
    constructed st' = constructed st /\
    np_random st' = np_random st /\
    log_out st' =
      log_out st ++
      (if display (args st) && isEnabledFor st WARNING
       then [(WARNING, MsgDisplayDisabled)] else []).
Proof.
  intros Hruns. rewrite (autoplay_no_runs fuel st Hruns).
  destruct (unstarted_fields st) as (Hc & Hr & _ & Hl).
  eexists _, _. split; [reflexivity|].
  split; [intros ->; reflexivity|].
  split; [intros Hneg; destruct (Z.eqb_spec (autoplay_runs (args st)) 0);
          [lia | reflexivity]|].
  split; [exact Hc|]. split; [exact Hr | exact Hl].
Qed.

(** [alice] against [bob] with [--autoplay_runs -3]. *)
Lemma autoplay_without_runs_witness :
  exists st',
    autoplay 10
      (Simulator_init Toy.engine Toy.fs Toy.rng
         (Toy.config "alice" "bob" (Some (PyStr "boards")) (-3)))
    = Raise (ValueError "zero-size array to reduction operation maximum which has no identity") st' /\
    constructed st' = [] /\
    log_out st' = [(WARNING, MsgDisplayDisabled)].
Proof.
  destruct (autoplay_without_runs Toy.engine 10
              (Simulator_init Toy.engine Toy.fs Toy.rng
                 (Toy.config "alice" "bob" (Some (PyStr "boards")) (-3)))
              ltac:(discriminate))
    as (e & st' & H & _ & He & Hc & _ & Hl).
  exists st'. rewrite (He eq_refl) in H.
  split; [exact H|]. split; [exact Hc | exact Hl].
Defined.

(** ** Seat advantage *)

Section SeatAdvantage.

Context {E : Engine}.

Implicit Types st : Proc E.

Hypothesis first_seat_wins : seat_1_always_wins E.

Lemma world_step_winner st is_end s0 s1 st1 :
  world_step st = Ok (is_end, s0, s1) st1 -> is_end = true -> s1 < s0.
Proof.
  unfold world_step. destruct (world st) as [w|]; [|discriminate].
  destruct (World_step E w) as [w' [e|[[b x] y]]] eqn:Hs; [discriminate|].
  intros H Hend. injection H as Hb Hx Hy _. subst b x y is_end.
  exact (first_seat_wins _ _ _ _ Hs).
Qed.

Lemma step_until_end_winner fuel :
  forall is_end p0 p1 st sc st2,
    step_until_end fuel (is_end, p0, p1) st = Ok sc st2 ->
    (is_end = true -> p1 < p0) ->
    snd sc < fst sc.
Proof.
  induction fuel as [|fuel IH]; intros is_end p0 p1 st sc st2;
    cbn [step_until_end]; destruct is_end; try discriminate;
    try (intros H Hw; injection H as <- _; cbn; auto).
  unfold bind.
  destruct (world_step st) as [[[e' a] b] st1|e st1|] eqn:Hs;
    try discriminate.
  intros H _. eapply IH; [exact H|].
  eapply world_step_winner. exact Hs.
Qed.

Lemma run_winner fuel swap_players board_fpath st s0 s1 t0 t1 st' :
  run fuel swap_players board_fpath st = Ok (s0, s1, t0, t1) st' ->
  s1 < s0.
Proof.
  rewrite run_phases. destruct (World_init E _) as [e|w0]; [discriminate|].
  destruct (bind world_step (step_until_end fuel) _)
    as [sc st2|e st2|] eqn:Hloop; try discriminate.
  cbv zeta.
  assert (Hsc : snd sc < fst sc).
  { unfold bind in Hloop.
    destruct (world_step _) as [[[e' a] b] st1|e st1|] eqn:Hs;
      try discriminate.
    eapply step_until_end_winner; [exact Hloop|].
    eapply world_step_winner. exact Hs. }
  destruct (world _); [|discriminate].
  intros H. injection H as <- <- _ _ _. exact Hsc.
Qed.

(** An iteration with exchanged seats is won by agent 2, the others by
    agent 1. *)
Lemma autoplay_body_winner fuel i s st s' st' :
  autoplay_body fuel i s st = Ok s' st' ->
  if Z.of_nat i mod 2 =? 0
  then p1_win_count s' = p1_win_count s /\
       p2_win_count s' = (p2_win_count s + 1)%Q
  else p1_win_count s' = (p1_win_count s + 1)%Q /\
       p2_win_count s' = p2_win_count s.
Proof.
  rewrite autoplay_body_unfold. cbv zeta.
  destruct (board_options st) as [|b0 roster]; [discriminate|].
  destruct (run _ _ _ _) as [[[[s0 s1] t0] t1] st1|e st1|] eqn:Hrun;
    try discriminate.
  apply run_winner in Hrun. intros H. injection H as <- _.
  destruct (Z.of_nat i mod 2 =? 0); unfold unswap, tally.
  - destruct (Z.ltb_spec s0 s1); [lia|].
    destruct (Z.ltb_spec s1 s0); [|lia]. split; reflexivity.
  - destruct (Z.ltb_spec s1 s0); [|lia]. split; reflexivity.
Qed.

Lemma for_each_app (body : nat -> Stats -> M E Stats) (l1 l2 : list nat) :
  forall s st,
    for_each body (l1 ++ l2) s st =
    bind (for_each body l1 s) (for_each body l2) st.
Proof.
  induction l1 as [|i l1 IH]; intros s st; cbn [app for_each].
  - reflexivity.
  - rewrite <- bind_assoc. unfold bind at 1 2.
    destruct (body i s st) as [s1 st1|e st1|];
      [apply IH | reflexivity | reflexivity].
Qed.

Lemma for_each_winners fuel (N : nat) :
  forall st s' st',
    for_each (autoplay_body fuel) (seq 0 N) stats0 st = Ok s' st' ->
    (p1_win_count s' == inject_Z (Z.of_nat N / 2))%Q /\
    (p2_win_count s' == inject_Z ((Z.of_nat N + 1) / 2))%Q.
Proof.
  induction N as [|N IH]; intros st s' st' H.
  - cbn [seq for_each ret] in H. injection H as <- _. cbn. split; reflexivity.
  - rewrite seq_S, for_each_app in H. cbn [Nat.add] in H.
    unfold bind in H.
    destruct (for_each _ (seq 0 N) stats0 st) as [s1 st1|e st1|] eqn:H1;
      try discriminate.
    destruct (IH _ _ _ H1) as [Hp1 Hp2].
    cbn [for_each] in H. unfold bind, ret in H.
    destruct (autoplay_body fuel N s1 st1) as [s2 st2|e st2|] eqn:Hb;
      try discriminate.
    injection H as <- _.
    apply autoplay_body_winner in Hb.
    destruct (Z.eqb_spec (Z.of_nat N mod 2) 0) as [Hev|Hodd];
      destruct Hb as [-> ->]; rewrite ?Hp1, ?Hp2.
    + split.
      * replace (Z.of_nat (S N) / 2) with (Z.of_nat N / 2) by (rewrite Nat2Z.inj_succ; Z.div_mod_to_equations; lia).
        reflexivity.
      * replace ((Z.of_nat (S N) + 1) / 2)
          with ((Z.of_nat N + 1) / 2 + 1) by (rewrite Nat2Z.inj_succ; Z.div_mod_to_equations; lia).
        rewrite inject_Z_plus. reflexivity.
    + split.
      * replace (Z.of_nat (S N) / 2) with (Z.of_nat N / 2 + 1) by (rewrite Nat2Z.inj_succ; Z.div_mod_to_equations; lia).
        rewrite inject_Z_plus. reflexivity.
      * replace ((Z.of_nat (S N) + 1) / 2)
          with ((Z.of_nat N + 1) / 2) by (rewrite Nat2Z.inj_succ; Z.div_mod_to_equations; lia).
        reflexivity.
Qed.

End SeatAdvantage.

(** X9: Alternating the seats cancels a first-seat advantage: on an engine
    that seat 1 always wins, a returning [autoplay] of [N] runs credits
    agent 1 with [N / 2] wins (rounded down) and agent 2 with the rest, so
    that for an even [N] the two credits are equal. *)
Theorem swap_cancels_seat_advantage (E : Engine) (fuel : nat) (st : Proc E)
  (s : Stats) (st' : Proc E) :
  seat_1_always_wins E ->
  autoplay fuel st = Ok s st' ->
  let N := autoplay_runs (args st) in
  (p1_win_count s == inject_Z (N / 2))%Q /\
  (p2_win_count s == inject_Z ((N + 1) / 2))%Q /\
  (N mod 2 = 0 -> (p1_win_count s == p2_win_count s)%Q).
Proof.
  intros Hwin H N.
  destruct (autoplay_ok_requirements fuel st s st' H) as (Hruns & _).
  apply autoplay_ok_loop in H as (st1 & Hloop & _).
  unfold autoplay_loop, bind, gets in Hloop.
  rewrite loop_entry_runs in Hloop.
  apply (for_each_winners Hwin) in Hloop as [H1 H2].
  rewrite Z2Nat.id in H1, H2 by lia. fold N in H1, H2.
  split; [exact H1|]. split; [exact H2|].
  intros Heven. rewrite H1, H2.
  replace ((N + 1) / 2) with (N / 2) by (Z.div_mod_to_equations; lia).
  reflexivity.
Qed.

(** Six runs on the engine that ends every match at once with a win for
    seat 1. *)
Lemma swap_cancels_seat_advantage_witness :
  match autoplay 10 (FirstMover.proc 6) with
  | Ok s _ => (p1_win_count s == 3)%Q /\ (p2_win_count s == 3)%Q
  | _ => False
  end.
Proof.
  destruct (autoplay 10 (FirstMover.proc 6)) as [s st'|e st'|] eqn:H.
  - assert (Hwin : seat_1_always_wins FirstMover.engine).
    { intros w w' s0 s1 Hs. cbn in Hs. injection Hs as _ <- <-.
      reflexivity. }
    destruct (swap_cancels_seat_advantage FirstMover.engine 10
                (FirstMover.proc 6) s st' Hwin H) as (H1 & H2 & _).
    split; [exact H1 | exact H2].
  - vm_compute in H. discriminate H.
  - vm_compute in H. discriminate H.
Defined.

(** ** The paths of the roster *)

Lemma string_app_assoc (a b c : string) :
  ((a ++ b) ++ c)%string = (a ++ (b ++ c))%string.
Proof. induction a as [|x a IH]; cbn; [reflexivity | rewrite IH; reflexivity]. Qed.

Lemma string_app_cancel (a b c : string) :
  (a ++ b)%string = (a ++ c)%string -> b = c.
Proof.
  induction a as [|x a IH]; cbn; intros H; [exact H|].
  injection H as H. exact (IH H).
Qed.

Lemma has_suffix_trans (p f x : string) :
  has_suffix p f -> has_suffix f x -> has_suffix p x.
Proof.
  intros [u ->] [v ->]. exists (u ++ v)%string.
  symmetry. apply string_app_assoc.
Qed.

(** [os.path.join(a, b)] is [b] after one fixed lead when [b] is not
    absolute. *)
Lemma path_join_relative (a b : string) :
  startswith_sep b = false ->
  path_join a b =
  ((if String.eqb a "" || endswith a "/" then a else a ++ "/") ++ b)%string.
Proof.
  unfold path_join. intros ->.
  destruct (String.eqb a "" || endswith a "/"); [reflexivity|].
  symmetry. apply string_app_assoc.
Qed.

Lemma path_join_suffix (a b : string) : has_suffix (path_join a b) b.
Proof.
  destruct (startswith_sep b) eqn:Hb.
  - unfold path_join. rewrite Hb. exists "". reflexivity.
  - rewrite (path_join_relative a b Hb). eexists. reflexivity.
Qed.

Lemma path_join_prefix (a b : string) :
  startswith_sep b = false -> has_prefix (path_join a b) a.
Proof.
  intros Hb. rewrite (path_join_relative a b Hb).
  destruct (String.eqb a "" || endswith a "/").
  - exists b. reflexivity.
  - exists ("/" ++ b)%string. apply string_app_assoc.
Qed.

Lemma path_join_injective (a b c : string) :
  startswith_sep b = false -> startswith_sep c = false ->
  path_join a b = path_join a c -> b = c.
Proof.
  intros Hb Hc. rewrite (path_join_relative a b Hb),
    (path_join_relative a c Hc).
  apply string_app_cancel.
Qed.

Lemma init_board_options_cases (fs : FileSystem) (a : Args) :
  init_board_options fs a = [] \/
  exists dir,
    board_roster_dir a = Some (PyStr dir) /\
    isdir fs dir = true /\
    init_board_options fs a =
      map (path_join dir) (filter is_board_file (listdir fs dir)).
Proof.
  unfold init_board_options.
  destruct (board_roster_dir a) as [[| z | dir]|]; auto.
  - destruct (truthy (PyInt z)); auto.
  - destruct (truthy (PyStr dir)); auto.
    destruct (isdir fs dir) eqn:Hd; auto.
    right. exists dir. auto.
Qed.

(** X10: Every path that [__init__] puts in the roster itself ends with [.csv]
    or [.board]; it is the roster directory's path followed by the name of
    one of the directory's entries, and it ends with that name. *)
Theorem roster_paths_are_board_files (E : Engine) (fs : FileSystem)
  (g : nat -> Z) (a : Args) (p : string) :
  In p (board_options (Simulator_init E fs g a)) ->
  is_board_file p = true /\
  exists dir fname,
    board_roster_dir a = Some (PyStr dir) /\
    isdir fs dir = true /\
    In fname (listdir fs dir) /\
    has_suffix p fname /\
    (startswith_sep fname = false -> has_prefix p dir).
Proof.
  cbn [Simulator_init board_options].
  destruct (init_board_options_cases fs a) as [->|(dir & Hdir & Hd & ->)].
  - intros [].
  - rewrite in_map_iff. intros (f & <- & Hf).
    apply filter_In in Hf as [Hin Hb].
    split.
    + apply is_board_file_spec. apply is_board_file_spec in Hb.
      destruct Hb as [Hb|Hb]; [left | right];
        (eapply has_suffix_trans; [apply path_join_suffix | exact Hb]).
    + exists dir, f. repeat split; auto.
      * apply path_join_suffix.
      * apply path_join_prefix.
Qed.

(** The roster built from the listing [a.csv, b.board, c.txt]. *)
Lemma roster_paths_are_board_files_witness :
  is_board_file "boards/b.board" = true /\
  has_suffix "boards/b.board" "b.board" /\
  has_prefix "boards/b.board" "boards".
Proof.
  destruct (roster_paths_are_board_files Toy.engine Toy.fs Toy.rng
              (Toy.config "alice" "bob" (Some (PyStr "boards")) 4)
              "boards/b.board")
    as (Hb & dir & f & _ & _ & _ & _ & _).
  - right. left. reflexivity.
  - split; [exact Hb|]. split.
    + exists "boards/". reflexivity.
    + exists "/b.board". reflexivity.
Defined.

(** X11: When the listing of the roster directory has no repeated name and no
    name begins with a slash (as is the case of every directory listing),
    the roster has no repeated path, and it never has more entries than
    the directory. *)
Theorem roster_has_no_duplicates (E : Engine) (fs : FileSystem)
  (g : nat -> Z) (a : Args) :
  (forall dir, NoDup (listdir fs dir)) ->
  (forall dir fname, In fname (listdir fs dir) ->
                     startswith_sep fname = false) ->
  NoDup (board_options (Simulator_init E fs g a)) /\
  (forall dir, board_roster_dir a = Some (PyStr dir) ->
     (List.length (board_options (Simulator_init E fs g a))
      <= List.length (listdir fs dir))%nat).
Proof.
  intros Hnd Hrel. cbn [Simulator_init board_options].
  destruct (init_board_options_cases fs a) as [->|(dir & Hdir & Hd & ->)].
  - split; [constructor|]. intros; cbn; lia.
  - split.
    + assert (Hf : NoDup (filter is_board_file (listdir fs dir)))
        by (apply NoDup_filter, Hnd).
      assert (Hin : forall f, In f (filter is_board_file (listdir fs dir)) ->
                              startswith_sep f = false).
      { intros f Hf'. apply filter_In in Hf' as [Hf' _]. eauto. }
      induction (filter is_board_file (listdir fs dir)) as [|f l IH];
        cbn [map]; [constructor|].
      inversion Hf as [|? ? Hnotin Hl]; subst.
      constructor.
      * rewrite in_map_iff. intros (f' & Heq & Hf').
        apply path_join_injective in Heq;
          [subst; contradiction | apply Hin; right; exact Hf'
          | apply Hin; left; reflexivity].
      * apply IH; [exact Hl|]. intros f' Hf'. apply Hin. right. exact Hf'.
    + intros dir' Hdir'. rewrite Hdir in Hdir'. injection Hdir' as <-.
      rewrite length_map. apply filter_length_le.
Qed.

(** The roster built from the listing [a.csv, b.board, c.txt]. *)
Lemma roster_has_no_duplicates_witness :
  NoDup (board_options Toy.proc) /\
  (List.length (board_options Toy.proc) <= 3)%nat.
Proof.
  destruct (roster_has_no_duplicates Toy.engine Toy.fs Toy.rng
              (Toy.config "alice" "bob" (Some (PyStr "boards")) 4))
    as [Hnd Hlen].
  - intros dir. unfold Toy.fs; cbn [listdir].
    destruct (String.eqb dir "boards"); [|constructor].
    repeat constructor; cbn; intuition discriminate.
  - intros dir f. unfold Toy.fs; cbn [listdir].
    destruct (String.eqb dir "boards"); [|intros []].
    intros [<-|[<-|[<-|[]]]]; reflexivity.
  - split; [exact Hnd|]. exact (Hlen "boards" eq_refl).
Defined.

(** ** The command line *)

Lemma parse_valued_absent {A : Type} (type : string -> option A)
  (default : option A) :
  parse_valued type [] default = default.
Proof. reflexivity. Qed.

Lemma get_args_inv (B : Builtins) (cl : CommandLine) (a : Args) :
  get_args B cl = Some a ->
  exists z,
    parse_valued (py_int B) (cl_board_roster_dir cl) (py_int B "boards/")
      = Some z /\
    board_roster_dir a = Some (PyInt z) /\
    args_autoplay a = cl_autoplay cl /\
    display a = cl_display cl /\
    display_save a = cl_display_save cl.
Proof.
  unfold get_args.
  destruct (parse_valued Some (cl_player_1 cl) _); [|discriminate].
  destruct (parse_valued Some (cl_player_2 cl) _); [|discriminate].
  destruct (parse_valued _ (cl_board_path cl) _); [|discriminate].
  destruct (parse_valued (py_int B) (cl_board_roster_dir cl) _) as [z|];
    [|discriminate].
  destruct (parse_valued (py_float B) _ _); [|discriminate].
  destruct (parse_valued Some (cl_display_save_path cl) _); [|discriminate].
  destruct (parse_valued (py_int B) (cl_autoplay_runs cl) _); [|discriminate].
  intros H. injection H as <-. exists z. cbn. auto.
Qed.

Lemma int_roster_is_empty (fs : FileSystem) (a : Args) (z : Z) :
  board_roster_dir a = Some (PyInt z) -> init_board_options fs a = [].
Proof.
  unfold init_board_options. intros ->. destruct (truthy (PyInt z));
    reflexivity.
Qed.

(** X12: [get_args] declares [--board_roster_dir] with [type=int] and the
    default ["boards/"].  Given that [int("boards/")] raises, a command
    line without the option is a usage error; and every namespace that
    [get_args] returns holds an integer there, never a path, so that the
    [Simulator] built from it has an empty roster on any file system. *)
Theorem command_line_roster_is_empty (B : Builtins) (cl : CommandLine) :
  py_int B "boards/" = None ->
  (cl_board_roster_dir cl = [] -> get_args B cl = None) /\
  (forall a, get_args B cl = Some a ->
     cl_board_roster_dir cl <> [] /\
     (exists z, board_roster_dir a = Some (PyInt z)) /\
     forall (E : Engine) (fs : FileSystem) (g : nat -> Z),
       board_options (Simulator_init E fs g a) = []).
Proof.
  intros Hint.
  assert (Habsent : cl_board_roster_dir cl = [] -> get_args B cl = None).
  { intros Hcl. destruct (get_args B cl) as [a|] eqn:H; [|reflexivity].
    apply get_args_inv in H as (z & Hz & _).
    rewrite Hcl, parse_valued_absent, Hint in Hz. discriminate Hz. }
  split; [exact Habsent|].
  intros a H. split.
  - intros Hcl. rewrite (Habsent Hcl) in H. discriminate H.
  - apply get_args_inv in H as (z & _ & Hz & _).
    split; [exists z; exact Hz|].
    intros E fs g. exact (int_roster_is_empty fs a z Hz).
Qed.

(** [python simulator.py] alone, and a command line that passes the
    mandatory integer. *)
Lemma command_line_roster_is_empty_witness :
  get_args Cli.builtins Cli.bare = None /\
  exists a,
    get_args Cli.builtins Cli.tournament = Some a /\
    board_roster_dir a = Some (PyInt 7) /\
    board_options (Simulator_init Toy.engine Toy.fs Toy.rng a) = [].
Proof.
  destruct (command_line_roster_is_empty Cli.builtins Cli.bare eq_refl)
    as [H1 _].
  destruct (command_line_roster_is_empty Cli.builtins Cli.tournament eq_refl)
    as [_ H2].
  split; [exact (H1 eq_refl)|].
  eexists. split; [reflexivity|]. split; [reflexivity|].
  destruct (H2 _ eq_refl) as (_ & _ & H). apply H.
Defined.

(** X13: Started from the command line with [--autoplay], the program never
    completes a tournament: whatever the engine, the file system, the
    random source and the other options, either [get_args] exits with a
    usage error or [autoplay] raises before any engine is built (from
    [randint(0)] on the empty roster when at least one run is requested,
    from the first summary line otherwise). *)
Theorem main_autoplay_always_fails (E : Engine) (B : Builtins)
  (fs : FileSystem) (g : nat -> Z) (fuel : nat) (cl : CommandLine)
  (r : result (Proc E) unit) :
  cl_autoplay cl = true ->
  main E B fs g fuel cl = Some r ->
  exists e st',
    r = Raise e st' /\
    constructed st' = [] /\
    world st' = None /\
    (1 <= autoplay_runs (args st') -> e = ValueError "high <= 0").
Proof.
  intros Hauto. unfold main.
  destruct (get_args B cl) as [a|] eqn:Hargs; [|discriminate].
  pose proof Hargs as Hinv.
  apply get_args_inv in Hinv as (z & _ & Hz & Ha & _).
  rewrite Ha, Hauto. intros H. injection H as <-.
  set (st := Simulator_init E fs g a).
  assert (Hroster : board_options st = [])
    by exact (int_roster_is_empty fs a z Hz).
  destruct (unstarted_fields st) as (Hc & _ & Hw & _).
  destruct (Z_le_gt_dec (autoplay_runs (args st)) 0) as [Hle|Hgt].
  - unfold bind. rewrite (autoplay_no_runs fuel st Hle).
    eexists _, _. split; [reflexivity|].
    split; [exact Hc|]. split; [exact Hw|].
    destruct (loop_entry_fields st) as (Hargs' & _).
    cbn [args with_log_disable]. rewrite Hargs'.
    cbn [set_display autoplay_runs]. intros H1. lia.
  - unfold bind. rewrite (autoplay_no_roster fuel st Hroster ltac:(lia)).
    eexists _, _. split; [reflexivity|].
    split; [exact Hc|]. split; [exact Hw|]. reflexivity.
Qed.

(** [python simulator.py --autoplay --board_roster_dir 7 --autoplay_runs 4]
    on the small engine, with a directory [boards] holding two boards. *)
Lemma main_autoplay_always_fails_witness :
  exists st',
    main Toy.engine Cli.builtins Toy.fs Toy.rng 10 Cli.tournament
      = Some (Raise (ValueError "high <= 0") st') /\
    constructed st' = [].
Proof.
  destruct (main Toy.engine Cli.builtins Toy.fs Toy.rng 10 Cli.tournament)
    as [r|] eqn:H.
  - destruct (main_autoplay_always_fails Toy.engine Cli.builtins Toy.fs
                Toy.rng 10 Cli.tournament r eq_refl H)
      as (e & st' & -> & Hc & _ & He).
    exists st'. split; [|exact Hc].
    assert (Hruns : autoplay_runs (args st') = 4).
    { vm_compute in H. injection H as _ <-. reflexivity. }
    rewrite (He ltac:(rewrite Hruns; discriminate)). reflexivity.
  - vm_compute in H. discriminate H.
Defined.

(** ** Symmetry of the aggregation *)

(** X14: Lines 118-133 treat the two agents alike: exchanging the two agents in
    the accumulators and in the match result exchanges them in the updated
    accumulators.  Exchanging a result twice gives it back. *)
Theorem tally_is_symmetric (s : Stats) (r : MatchResult) :
  tally (mirror s) (unswap true r) = mirror (tally s r) /\
  unswap true (unswap true r) = r /\
  unswap false r = r.
Proof.
  destruct r as [[[a b] ta] tb]. unfold unswap, tally, mirror.
  split; [|split; reflexivity].
  destruct (Z.ltb_spec a b), (Z.ltb_spec b a); try lia;
    cbn [p1_win_count p2_win_count p1_times p2_times]; reflexivity.
Qed.
